(** * Pool Authority server: template processor, checkout and e-mail handlers

    A shallow embedding of [server.js] (the Resend variant, and the
    handlers of the Gmail variant but its generic send) together with the
    properties its specification states about it.

    Conventions of the embedding.
    - A JavaScript string is the list of its UTF-16 code units.
    - [req.body] is a JSON object.  A field of it is a [value]: absent
      ([VUndefined]), [null], a boolean or a string; [template], [data],
      [metadata] and [companySettings] are objects or absent.  The checkout
      amount is any JSON value or absent; a number is an IEEE-754 binary64
      number ([spec_float] at precision 53), and the other values are
      converted as [!amount], [amount <= 0] and [amount * 100] convert
      them.
    - An object used as a mapping is the list of its own properties in
      creation order; [Object_keys] enumerates it as the engine does.
    - Regular expressions are run by a backtracking matcher over the
      constructs the program's patterns use; [RegExp] reads the pattern
      sources built from literal characters, escapes and the dot, and a
      computation that meets another source ends as [Unread].
    - A handler is a function of the environment, the providers' answers
      and the request; it returns its response and the log of the provider
      calls it made.  Console output is not recorded. *)

From Stdlib Require Import String Ascii List Bool NArith ZArith Lia.
From Stdlib Require Import Floats.SpecFloat.
Import ListNotations.

(* ================================================================== *)
(** ** Strings *)
(* ================================================================== *)

Definition code_unit := N.
Bind Scope N_scope with code_unit.
Definition jsstring := list code_unit.

(** An ASCII literal as a JavaScript string. *)
Definition lit (s : string) : jsstring :=
  List.map N_of_ascii (list_ascii_of_string s).

Definition LBRACE : code_unit := 123%N.
Definition RBRACE : code_unit := 125%N.
Definition DOLLAR : code_unit := 36%N.
Definition STAR : code_unit := 42%N.
Definition HASH : code_unit := 35%N.
Definition SLASH : code_unit := 47%N.
Definition BACKSLASH : code_unit := 92%N.
Definition DOT : code_unit := 46%N.
Definition LF : code_unit := 10%N.
Definition CR : code_unit := 13%N.
Definition LS : code_unit := 8232%N.
Definition PS : code_unit := 8233%N.

Fixpoint str_eqb (a b : jsstring) : bool :=
  match a, b with
  | [], [] => true
  | x :: a', y :: b' => N.eqb x y && str_eqb a' b'
  | _, _ => false
  end.

Definition has_unit (c : code_unit) (s : jsstring) : bool :=
  existsb (N.eqb c) s.

(** Character classes of the patterns. *)
Definition in_range (lo hi c : code_unit) : bool :=
  (N.leb lo c && N.leb c hi)%bool.

(** [\w] : ASCII letters, digits and the underscore. *)
Definition is_word (c : code_unit) : bool :=
  in_range 97 122 c || in_range 65 90 c || in_range 48 57 c || N.eqb c 95.

(** [.] : every code unit but the four line terminators. *)
Definition is_dot (c : code_unit) : bool :=
  negb (N.eqb c LF || N.eqb c CR || N.eqb c LS || N.eqb c PS).

(** [[\s\S]] : every code unit. *)
Definition is_any (_ : code_unit) : bool := true.

Definition is_digit (c : code_unit) : bool := in_range 48 57 c.

(* ================================================================== *)
(** ** Regular expressions *)
(* ================================================================== *)

(** The patterns of the program are sequences of literal characters,
    character classes, capture groups and quantified classes.  A quantifier
    is only ever applied to a one-character atom, which is what [RStar]
    and [RPlus] record ([greedy = false] for [*?]). *)
Inductive regex : Type :=
| REmpty
| RChar (c : code_unit)
| RClass (p : code_unit -> bool)
| RSeq (r1 r2 : regex)
| RGroup (i : nat) (r : regex)
| RStar (greedy : bool) (p : code_unit -> bool)
| RPlus (greedy : bool) (p : code_unit -> bool).

(** Captures: group [i] (counted from 1) is at position [i - 1];
    [None] is a group that did not take part in the match. *)
Definition captures := list (option jsstring).

Fixpoint set_capture (i : nat) (v : jsstring) (caps : captures) : captures :=
  match i, caps with
  | _, [] => []
  | O, c :: cs => c :: cs
  | S O, _ :: cs => Some v :: cs
  | S n, c :: cs => c :: set_capture n v cs
  end.

Definition get_capture (i : nat) (caps : captures) : jsstring :=
  match i with
  | O => []
  | S n => match nth n caps None with Some v => v | None => [] end
  end.

(** A continuation receives the rest of the input and the captures so far
    and answers with the input left over when the whole pattern matched. *)
Definition cont := jsstring -> captures -> option (jsstring * captures).

Section Quantifier.
Variable p : code_unit -> bool.
Variable k : jsstring -> option (jsstring * captures).

(** [p*] : take as many as possible, give back one at a time. *)
Fixpoint star_greedy (s : jsstring) : option (jsstring * captures) :=
  match s with
  | c :: s' =>
      if p c then
        match star_greedy s' with
        | Some r => Some r
        | None => k s
        end
      else k s
  | [] => k s
  end.

(** [p*?] : take as few as possible, one more at a time. *)
Fixpoint star_lazy (s : jsstring) : option (jsstring * captures) :=
  match k s with
  | Some r => Some r
  | None =>
      match s with
      | c :: s' => if p c then star_lazy s' else None
      | [] => None
      end
  end.
End Quantifier.

Definition star (greedy : bool) p k s :=
  if greedy then star_greedy p k s else star_lazy p k s.

Fixpoint rmatch (r : regex) (k : cont) (s : jsstring) (caps : captures)
  : option (jsstring * captures) :=
  match r with
  | REmpty => k s caps
  | RChar c =>
      match s with
      | x :: s' => if N.eqb x c then k s' caps else None
      | [] => None
      end
  | RClass p =>
      match s with
      | x :: s' => if p x then k s' caps else None
      | [] => None
      end
  | RSeq r1 r2 => rmatch r1 (fun s' caps' => rmatch r2 k s' caps') s caps
  | RGroup i r1 =>
      rmatch r1
        (fun s' caps' =>
           k s' (set_capture i (firstn (length s - length s') s) caps'))
        s caps
  | RStar greedy p => star greedy p (fun s' => k s' caps) s
  | RPlus greedy p =>
      match s with
      | x :: s' => if p x then star greedy p (fun s'' => k s'' caps) s' else None
      | [] => None
      end
  end.

Fixpoint group_count (r : regex) : nat :=
  match r with
  | RSeq r1 r2 => Nat.max (group_count r1) (group_count r2)
  | RGroup i r1 => Nat.max i (group_count r1)
  | _ => 0
  end.

(** One attempt at the start of [s]: the length of the match and its
    captures. *)
Definition exec_at (r : regex) (s : jsstring) : option (nat * captures) :=
  match rmatch r (fun s' caps => Some (s', caps)) s
               (repeat None (group_count r)) with
  | Some (s', caps) => Some (length s - length s', caps)
  | None => None
  end.

Definition RLit (w : jsstring) : regex :=
  fold_right (fun c r => RSeq (RChar c) r) REmpty w.

(** [new RegExp(source)] for the pattern syntax the embedding reads:
    literal characters, escaped syntax characters and the dot.  Any other
    construct is left unread ([None]). *)
Definition syntax_char (c : code_unit) : bool :=
  has_unit c (lit "^$\.*+?()[]{}|/").

Fixpoint RegExp (source : jsstring) : option regex :=
  match source with
  | [] => Some REmpty
  | c :: rest =>
      if N.eqb c BACKSLASH then
        match rest with
        | e :: rest' =>
            if syntax_char e then option_map (RSeq (RChar e)) (RegExp rest')
            else None
        | [] => None
        end
      else if N.eqb c DOT then option_map (RSeq (RClass is_dot)) (RegExp rest)
      else if syntax_char c && negb (N.eqb c SLASH) then None
      else option_map (RSeq (RChar c)) (RegExp rest)
  end.

(** The three pattern literals of [processTemplate]. *)

(** [/\{\{#if (\w+)\}\}([\s\S]*?)\{\{\/if\}\}/g] *)
Definition re_conditional : regex :=
  RSeq (RLit (lit "{{#if "))
    (RSeq (RGroup 1 (RPlus true is_word))
       (RSeq (RLit (lit "}}"))
          (RSeq (RGroup 2 (RStar false is_any))
             (RLit (lit "{{/if}}"))))).

(** [/\*\*(.*?)\*\*/g] *)
Definition re_bold : regex :=
  RSeq (RLit (lit "**")) (RSeq (RGroup 1 (RStar false is_dot)) (RLit (lit "**"))).

(** [/\n/g] *)
Definition re_newline : regex := RChar LF.

(* ================================================================== *)
(** ** String.prototype.replace with a global pattern *)
(* ================================================================== *)

Record match_info := MatchInfo {
  matched : jsstring;
  groups : captures;
  before : jsstring;   (* the subject up to the match *)
  after : jsstring     (* the subject past the match *)
}.

Definition digit_value (c : code_unit) : nat := N.to_nat (c - 48).

(** GetSubstitution: expands [$$], [$&], [$`], [$'], [$n] and [$nn] in a
    replacement string; the patterns here have no named groups, so [$<]
    stays as it is. *)
Fixpoint GetSubstitution (m : match_info) (template : jsstring) : jsstring :=
  match template with
  | [] => []
  | c :: t =>
      if negb (N.eqb c DOLLAR) then c :: GetSubstitution m t
      else
        match t with
        | [] => [c]
        | d :: t' =>
            if N.eqb d DOLLAR then DOLLAR :: GetSubstitution m t'
            else if N.eqb d 38 then matched m ++ GetSubstitution m t'
            else if N.eqb d 96 then before m ++ GetSubstitution m t'
            else if N.eqb d 39 then after m ++ GetSubstitution m t'
            else if is_digit d then
              let n1 := digit_value d in
              let one :=
                if (1 <=? n1)%nat && (n1 <=? length (groups m))%nat
                then get_capture n1 (groups m) ++ GetSubstitution m t'
                else DOLLAR :: GetSubstitution m t in
              match t' with
              | d2 :: t'' =>
                  let n2 := (10 * n1 + digit_value d2)%nat in
                  if is_digit d2 && (1 <=? n2)%nat && (n2 <=? length (groups m))%nat
                  then get_capture n2 (groups m) ++ GetSubstitution m t''
                  else one
              | [] => one
              end
            else DOLLAR :: GetSubstitution m t
        end
  end.

(** The scan of a global replace: the leftmost match at or after the
    current position is replaced, the scan resumes past it (one code unit
    further after an empty match), and unmatched code units are copied.
    [skip] counts the code units of the current match still to pass. *)
Fixpoint replace_go (r : regex) (rep : match_info -> jsstring)
    (seen : jsstring) (skip : nat) (s : jsstring) {struct s} : jsstring :=
  match skip with
  | S n =>
      match s with
      | [] => []
      | c :: s' => replace_go r rep (seen ++ [c]) n s'
      end
  | O =>
      match exec_at r s with
      | Some (len, caps) =>
          rep (MatchInfo (firstn len s) caps seen (skipn len s)) ++
          match s with
          | [] => []
          | c :: s' =>
              match len with
              | O => c :: replace_go r rep (seen ++ [c]) 0 s'
              | S n => replace_go r rep (seen ++ [c]) n s'
              end
          end
      | None =>
          match s with
          | [] => []
          | c :: s' => c :: replace_go r rep (seen ++ [c]) 0 s'
          end
      end
  end.

(** [s.replace(r, f)] with a replacer function and [s.replace(r, t)] with a
    replacement string, [r] global. *)
Definition replace_fn (r : regex) (f : match_info -> jsstring) (s : jsstring) : jsstring :=
  replace_go r f [] 0 s.

Definition replace_str (r : regex) (t : jsstring) (s : jsstring) : jsstring :=
  replace_go r (fun m => GetSubstitution m t) [] 0 s.

(* ================================================================== *)
(** ** Values, objects and errors *)
(* ================================================================== *)

Inductive value : Type :=
| VUndefined
| VNull
| VBool (b : bool)
| VStr (s : jsstring).

Definition ToBoolean (v : value) : bool :=
  match v with
  | VUndefined | VNull => false
  | VBool b => b
  | VStr [] => false
  | VStr (_ :: _) => true
  end.

Definition ToString (v : value) : jsstring :=
  match v with
  | VUndefined => lit "undefined"
  | VNull => lit "null"
  | VBool true => lit "true"
  | VBool false => lit "false"
  | VStr s => s
  end.

(** [a || b] *)
Definition or_else (a b : value) : value :=
  if ToBoolean a then a else b.

(** An object is the list of its own enumerable properties, in creation
    order, each key bound once. *)
Definition object := list (jsstring * value).

Fixpoint own (o : object) (k : jsstring) : option value :=
  match o with
  | [] => None
  | (k', v) :: o' => if str_eqb k' k then Some v else own o' k
  end.

(** [o[k]] for an own key; [undefined] when [o] has no such property of
    its own. *)
Definition Get (o : object) (k : jsstring) : value :=
  match own o k with
  | Some v => v
  | None => VUndefined
  end.

(** The members every plain object inherits from [Object.prototype]; each
    is a function or an object. *)
Definition Object_prototype_names : list jsstring :=
  [ lit "constructor"; lit "hasOwnProperty"; lit "isPrototypeOf";
    lit "propertyIsEnumerable"; lit "toLocaleString"; lit "toString";
    lit "valueOf"; lit "__proto__"; lit "__defineGetter__";
    lit "__defineSetter__"; lit "__lookupGetter__"; lit "__lookupSetter__" ].

(** [o[name] ? _ : _] : the test of a property read, own or inherited. *)
Definition truthy_property (o : object) (name : jsstring) : bool :=
  match own o name with
  | Some v => ToBoolean v
  | None => existsb (str_eqb name) Object_prototype_names
  end.

(** [o[k] = v] on an object literal under construction: a key already
    there keeps its place and takes the new value. *)
Fixpoint set_property (o : object) (k : jsstring) (v : value) : object :=
  match o with
  | [] => [(k, v)]
  | (k', v') :: o' =>
      if str_eqb k' k then (k', v) :: o' else (k', v') :: set_property o' k v
  end.

(** Array-index keys (canonical decimal numerals below 2^32 - 1) are
    enumerated first, in ascending order, then the other keys in creation
    order. *)
Fixpoint decimal_value (acc : N) (s : jsstring) : N :=
  match s with
  | [] => acc
  | c :: s' => decimal_value (10 * acc + (c - 48)) s'
  end.

Definition array_index (k : jsstring) : option N :=
  match k with
  | [] => None
  | c :: rest =>
      if forallb is_digit k
         && implb (N.eqb c 48) (match rest with [] => true | _ => false end)
         && (length k <=? 10)%nat && N.ltb (decimal_value 0 k) 4294967295
      then Some (decimal_value 0 k)
      else None
  end.

Fixpoint insert_index (n : N) (k : jsstring) (l : list (N * jsstring))
  : list (N * jsstring) :=
  match l with
  | [] => [(n, k)]
  | (m, j) :: l' =>
      if N.ltb n m then (n, k) :: l else (m, j) :: insert_index n k l'
  end.

Fixpoint index_keys (o : object) : list (N * jsstring) :=
  match o with
  | [] => []
  | (k, _) :: o' =>
      match array_index k with
      | Some n => insert_index n k (index_keys o')
      | None => index_keys o'
      end
  end.

Fixpoint name_keys (o : object) : list jsstring :=
  match o with
  | [] => []
  | (k, _) :: o' =>
      match array_index k with
      | Some _ => name_keys o'
      | None => k :: name_keys o'
      end
  end.

Definition Object_keys (o : object) : list jsstring :=
  List.map snd (index_keys o) ++ name_keys o.

(** [{ ...target, ...source }] : the own properties of [source] are
    defined on the literal in enumeration order; [undefined] and [null]
    spread nothing. *)
Definition spread (target : object) (source : option object) : object :=
  match source with
  | None => target
  | Some src =>
      fold_left (fun o k => set_property o k (Get src k)) (Object_keys src) target
  end.

Inductive exn : Type :=
| TypeError                       (* raised by the engine *)
| Error (message : jsstring).     (* [new Error(message)] *)

(** The completion of a computation: a value, an exception, or a pattern
    outside the syntax [RegExp] reads. *)
Inductive completion (A : Type) : Type :=
| Ok (a : A)
| Throw (e : exn)
| Unread.

Arguments Ok {A} a.
Arguments Throw {A} e.
Arguments Unread {A}.

Definition bind {A B : Type} (m : completion A) (f : A -> completion B) : completion B :=
  match m with
  | Ok a => f a
  | Throw e => Throw e
  | Unread => Unread
  end.

Notation "x <- m ;; f" := (bind m (fun x => f))
  (at level 61, m at next level, right associativity).

(* ================================================================== *)
(** ** processTemplate *)
(* ================================================================== *)

(** The body of the [forEach] over the keys:
    [result = result.replace(new RegExp(`\\{\\{${key}\\}\\}`, 'g'), data[key] || '')]. *)
Definition mergeTag (data : object) (result : jsstring) (key : jsstring)
  : completion jsstring :=
  match RegExp (lit "\{\{" ++ key ++ lit "\}\}") with
  | Some regex =>
      Ok (replace_str regex (ToString (or_else (Get data key) (VStr []))) result)
  | None => Unread
  end.

Fixpoint mergeTags (data : object) (keys : list jsstring) (result : jsstring)
  : completion jsstring :=
  match keys with
  | [] => Ok result
  | key :: keys' =>
      result' <- mergeTag data result key ;;
      mergeTags data keys' result'
  end.

(** [result.replace(/\{\{#if (\w+)\}\}([\s\S]*?)\{\{\/if\}\}/g,
      (match, condition, content) => data[condition] ? content : '')] *)
Definition resolveConditionals (data : object) (result : jsstring) : jsstring :=
  replace_fn re_conditional
    (fun m =>
       let condition := get_capture 1 (groups m) in
       let content := get_capture 2 (groups m) in
       if truthy_property data condition then content else [])
    result.

(** [result.replace(/\*\*(.*?)\*\*/g, '<strong>$1</strong>')] *)
Definition convertBold (result : jsstring) : jsstring :=
  replace_str re_bold (lit "<strong>$1</strong>") result.

(** [result.replace(/\n/g, '<br>')] *)
Definition convertNewlines (result : jsstring) : jsstring :=
  replace_str re_newline (lit "<br>") result.

(** [processTemplate(template, data)].  A [template] that is not a string
    has no [replace] method: the first call throws. *)
Definition processTemplate (template : value) (data : object) : completion jsstring :=
  match template with
  | VStr template =>
      let result := template in
      result <- mergeTags data (Object_keys data) result ;;
      let result := resolveConditionals data result in
      let result := convertBold result in
      let result := convertNewlines result in
      Ok result
  | _ =>
      match Object_keys data with
      | key :: _ =>
          match RegExp (lit "\{\{" ++ key ++ lit "\}\}") with
          | Some _ => Throw TypeError
          | None => Unread
          end
      | [] => Throw TypeError
      end
  end.

(* ================================================================== *)
(** ** wrapInHtmlEmail *)
(* ================================================================== *)

Record settings := Settings {
  companyName : value;
  ownerName : value;
  phone : value;
  email : value;
  address : value;
  logoUrl : value;
  primaryColor : value;
  accentColor : value
}.

(** [companySettings?.field] : [companySettings] is an object or is
    [undefined]/[null]. *)
Definition opt_field (companySettings : option settings) (field : settings -> value)
  : value :=
  match companySettings with
  | Some s => field s
  | None => VUndefined
  end.

Definition QUOTE : code_unit := 34%N.

(** A double-quoted attribute value. *)
Definition q (s : jsstring) : jsstring := QUOTE :: s ++ [QUOTE].

(** One line of the template literal, with the line feed that ends it. *)
Definition line (parts : list jsstring) : jsstring := concat parts ++ [LF].

Definition wrapInHtmlEmail (content : jsstring) (companySettings : option settings)
  : jsstring :=
  let primaryColor :=
    ToString (or_else (opt_field companySettings primaryColor) (VStr (lit "#1e3a5f"))) in
  let accentColor :=
    ToString (or_else (opt_field companySettings accentColor) (VStr (lit "#5bb4d8"))) in
  let or_empty f := ToString (or_else (opt_field companySettings f) (VStr [])) in
  line [] ++
  line [lit "<!DOCTYPE html>"] ++
  line [lit "<html>"] ++
  line [lit "<head>"] ++
  line [lit "  <meta charset="; q (lit "utf-8"); lit ">"] ++
  line [lit "  <meta name="; q (lit "viewport"); lit " content=";
        q (lit "width=device-width, initial-scale=1.0"); lit ">"] ++
  line [lit "  <style>"] ++
  line [lit "    body { font-family: 'Segoe UI', Arial, sans-serif; line-height: 1.6; color: #333; margin: 0; padding: 0; background: #f5f5f5; }"] ++
  line [lit "    .container { max-width: 600px; margin: 20px auto; background: white; border-radius: 12px; overflow: hidden; box-shadow: 0 2px 10px rgba(0,0,0,0.1); }"] ++
  line [lit "    .header { background: linear-gradient(135deg, "; primaryColor;
        lit " 0%, "; accentColor;
        lit " 100%); color: white; padding: 30px; text-align: center; }"] ++
  line [lit "    .header h1 { margin: 0; font-size: 24px; }"] ++
  line [lit "    .content { padding: 30px; }"] ++
  line [lit "    .footer { background: #f8f9fa; padding: 20px; text-align: center; font-size: 12px; color: #666; }"] ++
  line [lit "    .btn { display: inline-block; padding: 12px 30px; background: ";
        primaryColor;
        lit "; color: white; text-decoration: none; border-radius: 6px; margin: 10px 0; }"] ++
  line [lit "  </style>"] ++
  line [lit "</head>"] ++
  line [lit "<body>"] ++
  line [lit "  <div class="; q (lit "container"); lit ">"] ++
  line [lit "    <div class="; q (lit "header"); lit ">"] ++
  line [lit "      ";
        if ToBoolean (opt_field companySettings logoUrl)
        then lit "<img src=" ++ q (ToString (opt_field companySettings logoUrl))
             ++ lit " alt=" ++ q (lit "Logo") ++ lit " style="
             ++ q (lit "max-height: 60px; margin-bottom: 10px;") ++ lit ">"
        else []] ++
  line [lit "      <h1>";
        ToString (or_else (opt_field companySettings companyName)
                          (VStr (lit "Pool Authority")));
        lit "</h1>"] ++
  line [lit "    </div>"] ++
  line [lit "    <div class="; q (lit "content"); lit ">"] ++
  line [lit "      "; content] ++
  line [lit "    </div>"] ++
  line [lit "    <div class="; q (lit "footer"); lit ">"] ++
  line [lit "      "; or_empty companyName; lit "<br>"] ++
  line [lit "      "; or_empty address; lit "<br>"] ++
  line [lit "      "; or_empty phone; lit " | "; or_empty email] ++
  line [lit "    </div>"] ++
  line [lit "  </div>"] ++
  line [lit "</body>"] ++
  lit "</html>".

(* ================================================================== *)
(** ** Numbers *)
(* ================================================================== *)

(** A Number is an IEEE-754 binary64 value. *)
Definition number := spec_float.

Definition prec : Z := 53.
Definition emax : Z := 1024.

Definition number_of_Z (z : Z) : number := binary_normalize prec emax z 0 false.

(** [x * y] *)
Definition Number_multiply (x y : number) : number := SFmul prec emax x y.

(** [x <= y] : false as soon as one side is NaN. *)
Definition Number_le (x y : number) : bool := SFleb x y.

(** [Math.round(x)] : the integer nearest to [x], ties towards
    +Infinity; NaN, the infinities and the zeros are returned as they are,
    and a result of zero keeps the sign of [x]. *)
Definition Math_round (x : number) : number :=
  match x with
  | S754_finite s m e =>
      match e with
      | Zneg p =>
          let d := Z.pow_pos 2 p in
          let v := if s then Zneg m else Zpos m in
          let n := Z.div (2 * v + d) (2 * d) in
          if Z.eqb n 0 then S754_zero s else number_of_Z n
      | _ => x
      end
  | _ => x
  end.

(** *** Strings read as numbers *)

(** [StrWhiteSpaceChar] : white space and line terminators. *)
Definition is_white_space (c : code_unit) : bool :=
  in_range 9 13 c || N.eqb c 32 || N.eqb c 160 || N.eqb c 5760
  || in_range 8192 8202 c || N.eqb c LS || N.eqb c PS || N.eqb c 8239
  || N.eqb c 8287 || N.eqb c 12288 || N.eqb c 65279.

Fixpoint trim_start (s : jsstring) : jsstring :=
  match s with
  | [] => []
  | c :: s' => if is_white_space c then trim_start s' else s
  end.

Definition trim (s : jsstring) : jsstring :=
  rev (trim_start (rev (trim_start s))).

(** The longest prefix of [s] made of [p], and the rest. *)
Fixpoint span (p : code_unit -> bool) (s : jsstring) : jsstring * jsstring :=
  match s with
  | [] => ([], [])
  | c :: s' =>
      if p c then let (a, b) := span p s' in (c :: a, b) else ([], s)
  end.

Definition hex_digit_value (c : code_unit) : option N :=
  if in_range 48 57 c then Some (c - 48)%N
  else if in_range 97 102 c then Some (c - 87)%N
  else if in_range 65 70 c then Some (c - 55)%N
  else None.

Fixpoint digits_in (radix acc : N) (s : jsstring) : option N :=
  match s with
  | [] => Some acc
  | c :: s' =>
      match hex_digit_value c with
      | Some d => if N.ltb d radix then digits_in radix (radix * acc + d)%N s' else None
      | None => None
      end
  end.

(** [0x], [0o] and [0b] literals; they take no sign. *)
Definition non_decimal (s : jsstring) : option N :=
  match s with
  | z :: p :: d :: ds =>
      if negb (N.eqb z 48) then None
      else if N.eqb p 120 || N.eqb p 88 then digits_in 16%N 0%N (d :: ds)
      else if N.eqb p 111 || N.eqb p 79 then digits_in 8%N 0%N (d :: ds)
      else if N.eqb p 98 || N.eqb p 66 then digits_in 2%N 0%N (d :: ds)
      else None
  | _ => None
  end.

(** The Number nearest to [m * 10^e], ties to even. *)
Definition round_decimal (negative : bool) (m : N) (e : Z) : number :=
  match m with
  | N0 => S754_zero negative
  | Npos p =>
      match e with
      | Zneg q =>
          SFdiv prec emax (S754_finite negative p 0)
                (S754_finite false (Pos.pow 10 q) 0)
      | Z0 => binary_round prec emax negative p 0
      | Zpos q => binary_round prec emax negative (p * Pos.pow 10 q) 0
      end
  end.

(** [ExponentPart], when there is one. *)
Definition exponent_part (s : jsstring) : option Z :=
  match s with
  | [] => Some 0%Z
  | c :: s' =>
      if N.eqb c 101 || N.eqb c 69 then
        let (negative, ds) :=
          match s' with
          | d :: s'' =>
              if N.eqb d 43 then (false, s'')
              else if N.eqb d 45 then (true, s'')
              else (false, s')
          | [] => (false, [])
          end in
        match ds with
        | [] => None
        | _ :: _ =>
            if forallb is_digit ds then
              let n := Z.of_N (decimal_value 0 ds) in
              Some (if negative then (- n)%Z else n)
            else None
        end
      else None
  end.

(** [StrUnsignedDecimalLiteral] *)
Definition unsigned_decimal (negative : bool) (s : jsstring) : option number :=
  if str_eqb s (lit "Infinity") then Some (S754_infinity negative)
  else
    let (ip, r1) := span is_digit s in
    let (fp, r2) :=
      match r1 with
      | c :: r => if N.eqb c DOT then span is_digit r else ([], r1)
      | [] => ([], [])
      end in
    match ip ++ fp with
    | [] => None
    | ds =>
        match exponent_part r2 with
        | Some e =>
            Some (round_decimal negative (decimal_value 0 ds)
                                (e - Z.of_nat (length fp)))
        | None => None
        end
    end.

(** [StringToNumber(s)] : the string, trimmed, is empty ([+0]), a
    numeric literal, or something else ([NaN]).  A decimal literal is
    rounded from its exact value, whatever the number of its digits. *)
Definition StringToNumber (s : jsstring) : number :=
  match trim s with
  | [] => S754_zero false
  | c :: t =>
      match non_decimal (c :: t) with
      | Some n => number_of_Z (Z.of_N n)
      | None =>
          let r :=
            if N.eqb c 43 then unsigned_decimal false t
            else if N.eqb c 45 then unsigned_decimal true t
            else unsigned_decimal false (c :: t) in
          match r with
          | Some x => x
          | None => S754_nan
          end
      end
  end.

(** *** The amount of a request *)

(** The request's [amount] field: absent, or any JSON value. *)
#[warnings="-register-all"]
Inductive amount_value : Type :=
| AmountAbsent
| AmountNull
| AmountBool (b : bool)
| AmountNumber (x : number)
| AmountString (s : jsstring)
| AmountArray (items : list amount_value)
| AmountObject (properties : list (jsstring * amount_value)).

(** [!!amount] *)
Definition amount_truthy (a : amount_value) : bool :=
  match a with
  | AmountAbsent | AmountNull => false
  | AmountBool b => b
  | AmountNumber (S754_zero _) | AmountNumber S754_nan => false
  | AmountNumber _ => true
  | AmountString [] => false
  | AmountString (_ :: _) => true
  | AmountArray _ | AmountObject _ => true
  end.

(** A parsed object has an own [toString] that is no function: neither
    it nor the inherited [valueOf] yields a primitive. *)
Definition has_own_toString (properties : list (jsstring * amount_value)) : bool :=
  existsb (fun p => str_eqb (fst p) (lit "toString")) properties.

(** Converting [a] to a primitive throws: [a] is such an object, or an
    array that holds one ([join] converts every element). *)
Fixpoint unconvertible (a : amount_value) : bool :=
  match a with
  | AmountObject properties => has_own_toString properties
  | AmountArray items => existsb unconvertible items
  | _ => false
  end.

(** The Number read from the string that [join] makes of an element:
    [undefined] and [null] give the empty string, an object gives
    ["[object Object]"], an array is joined in turn and two elements or
    more leave a comma in the string; the string of a Number reads back
    as that Number, [-0] as [+0]. *)
Fixpoint element_number (a : amount_value) : number :=
  match a with
  | AmountAbsent | AmountNull => S754_zero false
  | AmountBool _ => S754_nan
  | AmountNumber (S754_zero _) => S754_zero false
  | AmountNumber x => x
  | AmountString s => StringToNumber s
  | AmountArray [] => S754_zero false
  | AmountArray [a'] => element_number a'
  | AmountArray (_ :: _ :: _) => S754_nan
  | AmountObject _ => S754_nan
  end.

(** [ToNumber(amount)], as [amount <= 0] and [amount * 100] take it. *)
Definition amount_ToNumber (a : amount_value) : completion number :=
  match a with
  | AmountAbsent => Ok S754_nan
  | AmountNull => Ok (S754_zero false)
  | AmountBool true => Ok (number_of_Z 1)
  | AmountBool false => Ok (S754_zero false)
  | AmountNumber x => Ok x
  | AmountString s => Ok (StringToNumber s)
  | AmountArray items =>
      if existsb unconvertible items then Throw TypeError
      else Ok (element_number a)
  | AmountObject properties =>
      if has_own_toString properties then Throw TypeError
      else Ok S754_nan              (* "[object Object]" *)
  end.

(** [!amount || amount <= 0] *)
Definition invalid_amount (a : amount_value) : completion bool :=
  if negb (amount_truthy a) then Ok true
  else
    n <- amount_ToNumber a ;;
    Ok (Number_le n (S754_zero false)).

(* ================================================================== *)
(** ** Requests, responses and the outside world *)
(* ================================================================== *)

Record template_fields := Template {
  template_subject : value;
  template_body : value
}.

(** [req.body] (and the one header the handlers read). *)
Record request := Request {
  to : value;
  subject : value;
  body : value;
  template : option template_fields;
  data : option object;
  companySettings : option settings;
  paymentLink : value;
  amount : amount_value;
  customerEmail : value;
  description : value;
  customerName : value;
  metadata : option object;
  origin : value
}.

(** [error.message] : the text of an [Error], or the engine's wording of
    a [TypeError]. *)
Inductive message : Type :=
| Text (s : jsstring)
| EngineText.

Definition message_of (e : exn) : message :=
  match e with
  | TypeError => EngineText
  | Error m => Text m
  end.

Inductive json_body : Type :=
| JError (error : message)
| JSuccess (message : jsstring)              (* { success: true, message } *)
| JSession (sessionId url : value).

Record response := Response { status : nat; json : json_body }.

(** The JSON posted to the Resend API. *)
Record resend_mail := ResendMail {
  bearer : jsstring;
  mail_from : jsstring;
  mail_to : value;
  mail_reply_to : jsstring;
  mail_subject : value;
  mail_html : jsstring
}.

(** The session configuration handed to Stripe. *)
Record session_config := SessionConfig {
  product_name : value;
  product_description : jsstring;
  unit_amount : number;
  success_url : jsstring;
  cancel_url : jsstring;
  session_metadata : object;
  customer_email : option value
}.

(** The options handed to the Gmail transporter. *)
Record mail_options := MailOptions {
  smtp_from : jsstring;
  smtp_to : value;
  smtp_subject : jsstring;
  smtp_html : jsstring
}.

Inductive call : Type :=
| ResendFetch (m : resend_mail)
| StripeCreate (c : session_config)
| GmailSendMail (o : mail_options).

(** What the providers answer. [fetch] rejects or yields a response with
    its [ok] flag and the [message] field of its JSON body. *)
Inductive fetch_outcome : Type :=
| Rejected (e : exn)
| Responded (ok : bool) (data_message : value).

Record world := World {
  fetch : resend_mail -> fetch_outcome;
  stripe_create : session_config -> completion (value * value);
  sendMail : mail_options -> completion unit
}.

(** A handler step: it appends the provider calls it makes to the log. *)
Definition action (A : Type) := list call -> completion A * list call.

Definition ret {A} (a : A) : action A := fun log => (Ok a, log).
Definition throw {A} (e : exn) : action A := fun log => (Throw e, log).
Definition lift {A} (c : completion A) : action A := fun log => (c, log).
Definition perform (c : call) : action unit := fun log => (Ok tt, log ++ [c]).

Definition abind {A B} (m : action A) (f : A -> action B) : action B :=
  fun log =>
    match m log with
    | (Ok a, log') => f a log'
    | (Throw e, log') => (Throw e, log')
    | (Unread, log') => (Unread, log')
    end.

Notation "x <-- m ;; f" := (abind m (fun x => f))
  (at level 61, m at next level, right associativity).

(** [try { m } catch (error) { h error }] *)
Definition try_catch {A} (m : action A) (h : exn -> action A) : action A :=
  fun log =>
    match m log with
    | (Throw e, log') => h e log'
    | r => r
    end.

Definition run {A} (m : action A) : completion A * list call := m [].

Definition respond (st : nat) (j : json_body) : action response :=
  ret (Response st j).

(** [process.env] as far as the server reads it. *)
Record environment := Environment {
  env_STRIPE_SECRET_KEY : option jsstring;
  env_RESEND_API_KEY : option jsstring;
  env_GMAIL_USER : option jsstring;
  env_GMAIL_APP_PASSWORD : option jsstring
}.

(** [process.env.NAME || fallback] *)
Definition env_or (v : option jsstring) (fallback : jsstring) : jsstring :=
  match v with
  | Some (c :: s) => c :: s
  | _ => fallback
  end.

Definition nonempty (s : jsstring) : bool :=
  match s with [] => false | _ :: _ => true end.

(** The derived keys of the merge data, before the caller's [data] is
    spread over them. *)
Definition derived_keys (fallback_name : jsstring) (companySettings : option settings)
  : object :=
  [ (lit "company_name",
      or_else (opt_field companySettings companyName) (VStr fallback_name));
    (lit "owner_name", or_else (opt_field companySettings ownerName) (VStr []));
    (lit "company_phone", or_else (opt_field companySettings phone) (VStr []));
    (lit "company_email", or_else (opt_field companySettings email) (VStr [])) ].

(** The body of [GET /]. *)
Record health_report := HealthReport {
  health_status : jsstring;
  health_email : jsstring;
  health_stripe : jsstring
}.




(** [companySettings || {}] *)
Definition no_settings : settings :=
  Settings VUndefined VUndefined VUndefined VUndefined
           VUndefined VUndefined VUndefined VUndefined.

Definition settings_or_empty (companySettings : option settings) : settings :=
  match companySettings with
  | Some s => s
  | None => no_settings
  end.

(* ================================================================== *)
(** ** The server (Resend variant) *)
(* ================================================================== *)

Module Resend.

Section Server.
Variable env : environment.
Variable w : world.

Definition STRIPE_SECRET_KEY : jsstring := env_or (env_STRIPE_SECRET_KEY env) [].
Definition RESEND_API_KEY : jsstring := env_or (env_RESEND_API_KEY env) [].
Definition REPLY_TO_EMAIL : jsstring :=
  env_or (env_GMAIL_USER env) (lit "jack@poolauthoritycny.com").

Definition emailConfigured : bool := nonempty RESEND_API_KEY.

Definition sendEmailWithResend (to subject : value) (htmlContent : jsstring)
    (fromName : value) : action unit :=
  let fromName :=           (* fromName = 'Pool Authority' *)
    match fromName with
    | VUndefined => VStr (lit "Pool Authority")
    | _ => fromName
    end in
  if negb (nonempty RESEND_API_KEY) then
    throw (Error (lit "Resend API key not configured"))
  else
    let mail :=
      ResendMail (lit "Bearer " ++ RESEND_API_KEY)
                 (ToString fromName ++ lit " <onboarding@resend.dev>")
                 to REPLY_TO_EMAIL subject htmlContent in
    _ <-- perform (ResendFetch mail) ;;
    match fetch w mail with
    | Rejected e => throw e
    | Responded ok data_message =>
        if negb ok then
          throw (Error (ToString (or_else data_message
                                          (VStr (lit "Failed to send email")))))
        else ret tt
    end.

(** [POST /create-checkout-session] *)
Definition create_checkout_session (req : request) : action response :=
  try_catch
    (invalid <-- lift (invalid_amount (amount req)) ;;
     if invalid
     then respond 400 (JError (Text (lit "Invalid amount")))
     else
       let base := ToString (or_else (origin req) (VStr (lit "http://localhost:3000"))) in
       amount_number <-- lift (amount_ToNumber (amount req)) ;;
       let sessionConfig :=
         SessionConfig
           (or_else (description req) (VStr (lit "Pool Service")))
           (lit "Invoice for "
              ++ ToString (or_else (customerName req) (VStr (lit "Customer"))))
           (Math_round (Number_multiply amount_number (number_of_Z 100)))
           (base ++ lit "?payment=success")
           (base ++ lit "?payment=cancelled")
           (match metadata req with Some m => m | None => [] end)
           (if ToBoolean (customerEmail req) then Some (customerEmail req) else None) in
       _ <-- perform (StripeCreate sessionConfig) ;;
       session <-- lift (stripe_create w sessionConfig) ;;
       respond 200 (JSession (fst session) (snd session)))
    (fun error => respond 500 (JError (message_of error))).

Definition not_configured : action response :=
  respond 400 (JError (Text (lit "Email not configured. Set RESEND_API_KEY."))).

Definition fromName (req : request) : value :=
  or_else (opt_field (companySettings req) companyName) (VStr (lit "Pool Authority")).

(** [template.subject] and [template.body]: reading a field of
    [undefined] throws. *)
Definition template_field (req : request) (f : template_fields -> value)
  : action value :=
  match template req with
  | Some t => ret (f t)
  | None => throw TypeError
  end.

Definition weekly_mergeData (req : request) : object :=
  spread (derived_keys (lit "Pool Authority") (companySettings req)) (data req).

(** [POST /send-weekly-update] *)
Definition send_weekly_update (req : request) : action response :=
  if negb emailConfigured then not_configured
  else
    try_catch
      (if negb (ToBoolean (to req))
       then respond 400 (JError (Text (lit "Recipient email required")))
       else
         let mergeData := weekly_mergeData req in
         ts <-- template_field req template_subject ;;
         subject <-- lift (processTemplate ts mergeData) ;;
         tb <-- template_field req template_body ;;
         bodyContent <-- lift (processTemplate tb mergeData) ;;
         let bodyHtml := wrapInHtmlEmail bodyContent (companySettings req) in
         _ <-- sendEmailWithResend (to req) (VStr subject) bodyHtml (fromName req) ;;
         respond 200 (JSuccess (lit "Weekly update sent successfully")))
      (fun error => respond 500 (JError (message_of error))).

Definition invoice_mergeData (req : request) : object :=
  spread
    (derived_keys (lit "Pool Authority") (companySettings req)
       ++ [(lit "payment_link", or_else (paymentLink req) (VStr []))])
    (data req).

(** The "Pay Now" button; its label starts with U+1F4B3, a surrogate
    pair. *)
Definition pay_now_button (paymentLink : value) : jsstring :=
  lit "<br><br><a href=" ++ q (ToString paymentLink) ++ lit " class="
    ++ q (lit "btn") ++ lit ">" ++ [55357; 56499]%N ++ lit " Pay Now</a>".

(** [POST /send-invoice] *)
Definition send_invoice (req : request) : action response :=
  if negb emailConfigured then not_configured
  else
    try_catch
      (if negb (ToBoolean (to req))
       then respond 400 (JError (Text (lit "Recipient email required")))
       else
         let mergeData := invoice_mergeData req in
         ts <-- template_field req template_subject ;;
         subject <-- lift (processTemplate ts mergeData) ;;
         tb <-- template_field req template_body ;;
         bodyContent <-- lift (processTemplate tb mergeData) ;;
         let bodyContent :=
           if ToBoolean (paymentLink req)
           then bodyContent ++ pay_now_button (paymentLink req)
           else bodyContent in
         let bodyHtml := wrapInHtmlEmail bodyContent (companySettings req) in
         _ <-- sendEmailWithResend (to req) (VStr subject) bodyHtml (fromName req) ;;
         respond 200 (JSuccess (lit "Invoice sent successfully")))
      (fun error => respond 500 (JError (message_of error))).

Definition quote_mergeData (req : request) : object :=
  spread (derived_keys (lit "Pool Authority") (companySettings req)) (data req).

(** [POST /send-quote] *)
Definition send_quote (req : request) : action response :=
  if negb emailConfigured then not_configured
  else
    try_catch
      (if negb (ToBoolean (to req))
       then respond 400 (JError (Text (lit "Recipient email required")))
       else
         let mergeData := quote_mergeData req in
         ts <-- template_field req template_subject ;;
         subject <-- lift (processTemplate ts mergeData) ;;
         tb <-- template_field req template_body ;;
         bodyContent <-- lift (processTemplate tb mergeData) ;;
         let bodyHtml := wrapInHtmlEmail bodyContent (companySettings req) in
         _ <-- sendEmailWithResend (to req) (VStr subject) bodyHtml (fromName req) ;;
         respond 200 (JSuccess (lit "Quote sent successfully")))
      (fun error => respond 500 (JError (message_of error))).

(** [body.replace(/\n/g, '<br>')] on a truthy [body]: only a string has
    the method. *)
Definition body_replace (body : value) : action jsstring :=
  match body with
  | VStr s => ret (replace_str re_newline (lit "<br>") s)
  | _ => throw TypeError
  end.

(** [POST /send-email] *)
Definition send_email (req : request) : action response :=
  if negb emailConfigured then not_configured
  else
    try_catch
      (if negb (ToBoolean (to req)) || negb (ToBoolean (subject req))
          || negb (ToBoolean (body req))
       then respond 400 (JError (Text (lit "to, subject, and body are required")))
       else
         content <-- body_replace (body req) ;;
         let bodyHtml := wrapInHtmlEmail content (companySettings req) in
         _ <-- sendEmailWithResend (to req) (subject req) bodyHtml (fromName req) ;;
         respond 200 (JSuccess (lit "Email sent successfully")))
      (fun error => respond 500 (JError (message_of error))).

(** The body of the test message; it starts with U+2705. *)
Definition test_html : jsstring :=
  lit "<h1>" ++ [9989]%N
    ++ lit " Email is working!</h1><p>Your Pool Authority email configuration is correct.</p>".

(** [POST /test-email] *)
Definition test_email (req : request) : action response :=
  if negb emailConfigured then not_configured
  else
    try_catch
      (let recipient := or_else (to req) (VStr REPLY_TO_EMAIL) in
       _ <-- sendEmailWithResend recipient (VStr (lit "Pool Authority - Email Test"))
               test_html (VStr (lit "Pool Authority")) ;;
       respond 200 (JSuccess (lit "Test email sent!")))
      (fun error => respond 500 (JError (message_of error))).

(** [GET /] *)
Definition health : health_report :=
  HealthReport (lit "Pool Authority Server Running")
    (if emailConfigured then lit "configured" else lit "not configured")
    (if nonempty STRIPE_SECRET_KEY then lit "configured" else lit "not configured").



(** The five e-mail endpoints. *)
Definition email_handlers : list (request -> action response) :=
  [send_weekly_update; send_invoice; send_quote; send_email; test_email].
End Server.

End Resend.

(* ================================================================== *)
(** ** The server (Gmail variant) *)
(* ================================================================== *)

Module Gmail.

Section Server.
Variable env : environment.
Variable w : world.

Definition GMAIL_USER : jsstring := env_or (env_GMAIL_USER env) [].
Definition GMAIL_APP_PASSWORD : jsstring := env_or (env_GMAIL_APP_PASSWORD env) [].

(** [emailTransporter] is created only when both credentials are set. *)
Definition emailTransporter : bool :=
  nonempty GMAIL_USER && nonempty GMAIL_APP_PASSWORD.

Definition test_html : jsstring :=
  lit "<h1>" ++ [9989]%N
    ++ lit " Email is working!</h1><p>Your Pool Authority email configuration is correct.</p>".

(** [POST /test-email] *)
Definition test_email (req : request) : action response :=
  if negb emailTransporter then
    respond 400
      (JError (Text (lit "Email not configured. Set GMAIL_USER and GMAIL_APP_PASSWORD.")))
  else
    try_catch
      (let options :=
         MailOptions GMAIL_USER (or_else (to req) (VStr GMAIL_USER))
                     (lit "Pool Authority - Email Test") test_html in
       _ <-- perform (GmailSendMail options) ;;
       _ <-- lift (sendMail w options) ;;
       respond 200 (JSuccess (lit "Test email sent!")))
      (fun error => respond 500 (JError (message_of error))).

(** [GET /] : the Stripe entry is the constant ['configured']. *)
Definition health : health_report :=
  HealthReport (lit "Pool Authority Server Running")
    (if emailTransporter then lit "configured" else lit "not configured")
    (lit "configured").

(** [wrapInHtmlEmail(content, companySettings)] of this variant: the
    settings are an object, and the heading falls back to a different
    name. *)
Definition wrapInHtmlEmail (content : jsstring) (companySettings : settings)
  : jsstring :=
  let primaryColor :=
    ToString (or_else (primaryColor companySettings) (VStr (lit "#1e3a5f"))) in
  let accentColor :=
    ToString (or_else (accentColor companySettings) (VStr (lit "#5bb4d8"))) in
  let or_empty (f : settings -> value) :=
    ToString (or_else (f companySettings) (VStr [])) in
  line [] ++
  line [lit "<!DOCTYPE html>"] ++
  line [lit "<html>"] ++
  line [lit "<head>"] ++
  line [lit "  <meta charset="; q (lit "utf-8"); lit ">"] ++
  line [lit "  <meta name="; q (lit "viewport"); lit " content=";
        q (lit "width=device-width, initial-scale=1.0"); lit ">"] ++
  line [lit "  <style>"] ++
  line [lit "    body { font-family: 'Segoe UI', Arial, sans-serif; line-height: 1.6; color: #333; margin: 0; padding: 0; background: #f5f5f5; }"] ++
  line [lit "    .container { max-width: 600px; margin: 20px auto; background: white; border-radius: 12px; overflow: hidden; box-shadow: 0 2px 10px rgba(0,0,0,0.1); }"] ++
  line [lit "    .header { background: linear-gradient(135deg, "; primaryColor;
        lit " 0%, "; accentColor;
        lit " 100%); color: white; padding: 30px; text-align: center; }"] ++
  line [lit "    .header h1 { margin: 0; font-size: 24px; }"] ++
  line [lit "    .content { padding: 30px; }"] ++
  line [lit "    .footer { background: #f8f9fa; padding: 20px; text-align: center; font-size: 12px; color: #666; }"] ++
  line [lit "    .btn { display: inline-block; padding: 12px 30px; background: ";
        primaryColor;
        lit "; color: white; text-decoration: none; border-radius: 6px; margin: 10px 0; }"] ++
  line [lit "  </style>"] ++
  line [lit "</head>"] ++
  line [lit "<body>"] ++
  line [lit "  <div class="; q (lit "container"); lit ">"] ++
  line [lit "    <div class="; q (lit "header"); lit ">"] ++
  line [lit "      ";
        if ToBoolean (logoUrl companySettings)
        then lit "<img src=" ++ q (ToString (logoUrl companySettings))
             ++ lit " alt=" ++ q (lit "Logo") ++ lit " style="
             ++ q (lit "max-height: 60px; margin-bottom: 10px;") ++ lit ">"
        else []] ++
  line [lit "      <h1>";
        ToString (or_else (companyName companySettings) (VStr (lit "Pool Service")));
        lit "</h1>"] ++
  line [lit "    </div>"] ++
  line [lit "    <div class="; q (lit "content"); lit ">"] ++
  line [lit "      "; content] ++
  line [lit "    </div>"] ++
  line [lit "    <div class="; q (lit "footer"); lit ">"] ++
  line [lit "      "; or_empty companyName; lit "<br>"] ++
  line [lit "      "; or_empty address; lit "<br>"] ++
  line [lit "      "; or_empty phone; lit " | "; or_empty email] ++
  line [lit "    </div>"] ++
  line [lit "  </div>"] ++
  line [lit "</body>"] ++
  lit "</html>".

Definition not_configured : action response :=
  respond 400
    (JError (Text (lit "Email not configured. Set GMAIL_USER and GMAIL_APP_PASSWORD."))).

(** [`"${companySettings?.companyName || 'Pool Service'}" <${GMAIL_USER}>`] *)
Definition from_header (req : request) : jsstring :=
  q (ToString (or_else (opt_field (companySettings req) companyName)
                       (VStr (lit "Pool Service"))))
    ++ lit " <" ++ GMAIL_USER ++ lit ">".

Definition template_field (req : request) (f : template_fields -> value)
  : action value :=
  match template req with
  | Some t => ret (f t)
  | None => throw TypeError
  end.

(** [await emailTransporter.sendMail(mailOptions)] *)
Definition send (options : mail_options) : action unit :=
  _ <-- perform (GmailSendMail options) ;;
  lift (sendMail w options).

Definition weekly_mergeData (req : request) : object :=
  spread (derived_keys (lit "Pool Service") (companySettings req)) (data req).

(** [POST /send-weekly-update] *)
Definition send_weekly_update (req : request) : action response :=
  if negb emailTransporter then not_configured
  else
    try_catch
      (if negb (ToBoolean (to req))
       then respond 400 (JError (Text (lit "Recipient email required")))
       else
         let mergeData := weekly_mergeData req in
         ts <-- template_field req template_subject ;;
         subject <-- lift (processTemplate ts mergeData) ;;
         tb <-- template_field req template_body ;;
         bodyContent <-- lift (processTemplate tb mergeData) ;;
         let bodyHtml :=
           wrapInHtmlEmail bodyContent (settings_or_empty (companySettings req)) in
         _ <-- send (MailOptions (from_header req) (to req) subject bodyHtml) ;;
         respond 200 (JSuccess (lit "Weekly update sent successfully")))
      (fun error => respond 500 (JError (message_of error))).

Definition invoice_mergeData (req : request) : object :=
  spread
    (derived_keys (lit "Pool Service") (companySettings req)
       ++ [(lit "payment_link", or_else (paymentLink req) (VStr []))])
    (data req).

(** [POST /send-invoice] *)
Definition send_invoice (req : request) : action response :=
  if negb emailTransporter then not_configured
  else
    try_catch
      (if negb (ToBoolean (to req))
       then respond 400 (JError (Text (lit "Recipient email required")))
       else
         let mergeData := invoice_mergeData req in
         ts <-- template_field req template_subject ;;
         subject <-- lift (processTemplate ts mergeData) ;;
         tb <-- template_field req template_body ;;
         bodyContent <-- lift (processTemplate tb mergeData) ;;
         let bodyContent :=
           if ToBoolean (paymentLink req)
           then bodyContent
                  ++ lit "<br><br><a href=" ++ q (ToString (paymentLink req))
                  ++ lit " class=" ++ q (lit "btn") ++ lit ">"
                  ++ [55357; 56499]%N ++ lit " Pay Now</a>"
           else bodyContent in
         let bodyHtml :=
           wrapInHtmlEmail bodyContent (settings_or_empty (companySettings req)) in
         _ <-- send (MailOptions (from_header req) (to req) subject bodyHtml) ;;
         respond 200 (JSuccess (lit "Invoice sent successfully")))
      (fun error => respond 500 (JError (message_of error))).

Definition quote_mergeData (req : request) : object :=
  spread (derived_keys (lit "Pool Service") (companySettings req)) (data req).

(** [POST /send-quote] *)
Definition send_quote (req : request) : action response :=
  if negb emailTransporter then not_configured
  else
    try_catch
      (if negb (ToBoolean (to req))
       then respond 400 (JError (Text (lit "Recipient email required")))
       else
         let mergeData := quote_mergeData req in
         ts <-- template_field req template_subject ;;
         subject <-- lift (processTemplate ts mergeData) ;;
         tb <-- template_field req template_body ;;
         bodyContent <-- lift (processTemplate tb mergeData) ;;
         let bodyHtml :=
           wrapInHtmlEmail bodyContent (settings_or_empty (companySettings req)) in
         _ <-- send (MailOptions (from_header req) (to req) subject bodyHtml) ;;
         respond 200 (JSuccess (lit "Quote sent successfully")))
      (fun error => respond 500 (JError (message_of error))).

(** [POST /create-checkout-session] : the same text as in the other
    variant. *)
Definition create_checkout_session (req : request) : action response :=
  try_catch
    (invalid <-- lift (invalid_amount (amount req)) ;;
     if invalid
     then respond 400 (JError (Text (lit "Invalid amount")))
     else
       let base := ToString (or_else (origin req) (VStr (lit "http://localhost:3000"))) in
       amount_number <-- lift (amount_ToNumber (amount req)) ;;
       let sessionConfig :=
         SessionConfig
           (or_else (description req) (VStr (lit "Pool Service")))
           (lit "Invoice for "
              ++ ToString (or_else (customerName req) (VStr (lit "Customer"))))
           (Math_round (Number_multiply amount_number (number_of_Z 100)))
           (base ++ lit "?payment=success")
           (base ++ lit "?payment=cancelled")
           (match metadata req with Some m => m | None => [] end)
           (if ToBoolean (customerEmail req) then Some (customerEmail req) else None) in
       _ <-- perform (StripeCreate sessionConfig) ;;
       session <-- lift (stripe_create w sessionConfig) ;;
       respond 200 (JSession (fst session) (snd session)))
    (fun error => respond 500 (JError (message_of error))).

(** The templated endpoints and the test endpoint. *)
Definition email_handlers : list (request -> action response) :=
  [send_weekly_update; send_invoice; send_quote; test_email].

End Server.

End Gmail.

(* ================================================================== *)
(** ** Shapes of templates *)
(* ================================================================== *)

(** [starts_with w s] : [w] is a prefix of [s]. *)
Fixpoint starts_with (w s : jsstring) : bool :=
  match w, s with
  | [], _ => true
  | c :: w', x :: s' => N.eqb x c && starts_with w' s'
  | _ :: _, [] => false
  end.

(** [occurs w s] : [w] occurs somewhere in [s]. *)
Fixpoint occurs (w s : jsstring) : bool :=
  starts_with w s ||
  match s with
  | [] => false
  | _ :: s' => occurs w s'
  end.

Definition free_of (c : code_unit) (s : jsstring) : bool := negb (has_unit c s).

(** A code unit that a pattern source reads as itself. *)
Definition literal_char (c : code_unit) : bool :=
  negb (N.eqb c BACKSLASH) && negb (N.eqb c DOT)
  && negb (syntax_char c && negb (N.eqb c SLASH)).

(** A tag name: the [\w]* of the template language. *)
Definition word (k : jsstring) : bool := forallb is_word k.

(** The merge tag [{{k}}]. *)
Definition tag (k : jsstring) : jsstring := LBRACE :: LBRACE :: k ++ [RBRACE; RBRACE].

(** The markers of a conditional block, [{{#if k}}] and [{{/if}}]. *)
Definition block_open (k : jsstring) : jsstring := lit "{{#if " ++ k ++ lit "}}".
Definition block_close : jsstring := lit "{{/if}}".

(** A template made of literal text and merge tags. *)
Inductive item : Type :=
| Txt (s : jsstring)
| Tag (k : jsstring).

Definition item_str (i : item) : jsstring :=
  match i with
  | Txt s => s
  | Tag k => tag k
  end.

Definition items_str (l : list item) : jsstring := concat (List.map item_str l).

(** Text has no opening brace; a tag name is a word. *)
Definition wf_item (i : item) : bool :=
  match i with
  | Txt s => free_of LBRACE s
  | Tag k => word k
  end.

(** What [data[key] || ''] inserts. *)
Definition inserted (data : object) (key : jsstring) : jsstring :=
  ToString (or_else (Get data key) (VStr [])).

(** The reading of a tag under [data]: the value of an own key, the tag
    itself when [data] has no such key. *)
Definition render_item (data : object) (i : item) : jsstring :=
  match i with
  | Txt s => s
  | Tag k =>
      match own data k with
      | Some _ => inserted data k
      | None => tag k
      end
  end.

(** A value that the later steps and the replacement syntax leave alone:
    no opening brace and no dollar sign in what is inserted. *)
Definition inert (data : object) (key : jsstring) : bool :=
  free_of LBRACE (inserted data key) && free_of DOLLAR (inserted data key).

(** A template of the full language: items, and conditional blocks whose
    content is made of items. *)
Inductive segment : Type :=
| Plain (i : item)
| Block (k : jsstring) (body : list item).

Definition segment_str (s : segment) : jsstring :=
  match s with
  | Plain i => item_str i
  | Block k body => block_open k ++ items_str body ++ block_close
  end.

Definition template_str (segs : list segment) : jsstring :=
  concat (List.map segment_str segs).

Definition wf_segment (s : segment) : bool :=
  match s with
  | Plain i => wf_item i
  | Block k body => nonempty k && word k && forallb wf_item body
  end.

Definition render_items (data : object) (body : list item) : jsstring :=
  concat (List.map (render_item data) body).

(** A block is kept, with its tags read, when its condition is truthy. *)
Definition render_segment (data : object) (s : segment) : jsstring :=
  match s with
  | Plain i => render_item data i
  | Block k body => if truthy_property data k then render_items data body else []
  end.

Definition map_segment (f : item -> item) (s : segment) : segment :=
  match s with
  | Plain i => Plain (f i)
  | Block k body => Block k (List.map f body)
  end.





(** [s] begins with a conditional block; [s] holds one somewhere. *)
Definition begins_with_block (s : jsstring) : Prop :=
  exists k content t,
    nonempty k = true /\ word k = true /\
    s = block_open k ++ content ++ block_close ++ t.

Definition holds_block (s : jsstring) : Prop :=
  exists a b, s = a ++ b /\ begins_with_block b.

(** A string cut into bold pairs: each [(pre, x)] stands for [pre **x**]. *)
Definition bold_pair := (jsstring * jsstring)%type.

Fixpoint pairs_str (ps : list bold_pair) (rest : jsstring) : jsstring :=
  match ps with
  | [] => rest
  | (pre, x) :: ps' => pre ++ lit "**" ++ x ++ lit "**" ++ pairs_str ps' rest
  end.

Fixpoint pairs_bold (ps : list bold_pair) (rest : jsstring) : jsstring :=
  match ps with
  | [] => rest
  | (pre, x) :: ps' =>
      pre ++ lit "<strong>" ++ x ++ lit "</strong>" ++ pairs_bold ps' rest
  end.

(** A well-formed pair: no asterisk before it or inside it, and [x] on one
    line. *)
Definition wf_pair (p : bold_pair) : bool :=
  let '(pre, x) := p in
  free_of STAR pre && free_of STAR x && forallb is_dot x.

(* ================================================================== *)
(** ** Notions used by the statements *)
(* ================================================================== *)

(** [m] holds the caller's [d] over the defaults [derived]. *)
Definition merged_over (derived : object) (d : option object) (m : object) : Prop :=
  (forall dd k v, d = Some dd -> own dd k = Some v -> own m k = Some v) /\
  (forall k, (forall dd, d = Some dd -> own dd k = None) -> own m k = own derived k).

(** The handler answered with a 400 error and called no provider. *)
Definition rejected_400 (r : completion response * list call) : Prop :=
  exists m, r = (Ok (Response 400 (JError m)), []).


(** The amounts that pass the guard [!amount || amount <= 0]: a number
    above zero, [true], a non-empty string or an array that reads as a
    number above zero or as NaN, and an object without a [toString] of
    its own. *)
Definition reaches_provider (a : amount_value) : Prop :=
  match a with
  | AmountAbsent | AmountNull => False
  | AmountBool b => b = true
  | AmountNumber x => SFltb (S754_zero false) x = true
  | AmountString s =>
      s <> [] /\ Number_le (StringToNumber s) (S754_zero false) = false
  | AmountArray items =>
      existsb unconvertible items = false /\
      Number_le (element_number a) (S754_zero false) = false
  | AmountObject properties => has_own_toString properties = false
  end.





(** One pass of the [forEach] on a template of text and tags, and all of
    them. *)
Definition merge_item (key v : jsstring) (i : item) : item :=
  match i with
  | Txt s => Txt s
  | Tag k => if str_eqb k key then Txt v else Tag k
  end.

Definition merge_all (data : object) (keys : list jsstring) (i : item) : item :=
  fold_left (fun i key => merge_item key (inserted data key) i) keys i.

(** The replacer of [resolveConditionals]. *)
Definition keep_if (data : object) (m : match_info) : jsstring :=
  let condition := get_capture 1 (groups m) in
  let content := get_capture 2 (groups m) in
  if truthy_property data condition then content else [].

(** What conditional resolution leaves of a segment. *)
Definition resolved_segment (data : object) (s : segment) : jsstring :=
  match s with
  | Plain i => item_str i
  | Block k body => if truthy_property data k then items_str body else []
  end.

(* ================================================================== *)
(** ** Sample inputs *)
(* ================================================================== *)

(** A request with an empty JSON body and no [Origin] header. *)
Definition empty_request : request :=
  Request VUndefined VUndefined VUndefined None None None VUndefined
          AmountAbsent VUndefined VUndefined VUndefined None VUndefined.

Definition with_amount (a : amount_value) : request :=
  Request VUndefined VUndefined VUndefined None None None VUndefined
          a VUndefined VUndefined VUndefined None VUndefined.

(** Providers that accept everything. *)
Definition accepting_world : world :=
  World (fun _ => Responded true VUndefined)
        (fun _ => Ok (VStr (lit "cs_test_1"), VStr (lit "https://checkout.stripe.com/c/pay/cs_test_1")))
        (fun _ => Ok tt).

(** Providers that refuse everything. *)
Definition refusing_world : world :=
  World (fun _ => Responded false VUndefined)
        (fun _ => Throw (Error (lit "Invalid API Key provided")))
        (fun _ => Throw (Error (lit "Invalid login"))).

Definition no_environment : environment := Environment None None None None.

Definition resend_environment : environment :=
  Environment (Some (lit "sk_test_1")) (Some (lit "re_1")) None None.

Definition gmail_environment : environment :=
  Environment (Some (lit "sk_test_1")) None (Some (lit "owner@example.com"))
              (Some (lit "abcdabcdabcdabcd")).

(** The binary64 number nearest to the decimal 49.99. *)
Definition amount_49_99 : number := S754_finite false 0x18feb851eb851f (-47).

(* ================================================================== *)
(** ** Notions used by the further properties *)
(* ================================================================== *)

(** What line-break conversion makes of one code unit. *)
Definition br_of (c : code_unit) : jsstring :=
  if N.eqb c LF then lit "<br>" else [c].

(** A replacement string in which no dollar sign is followed by [$], [&],
    a backquote or a quote: with a pattern that has no group, nothing of
    it is a replacement pattern. *)
Fixpoint dollar_safe (t : jsstring) : bool :=
  match t with
  | [] => true
  | c :: t' =>
      (negb (N.eqb c DOLLAR)
       || match t' with
          | [] => true
          | d :: _ =>
              negb (N.eqb d DOLLAR || N.eqb d 38 || N.eqb d 96 || N.eqb d 39)
          end)
      && dollar_safe t'
  end.

(** A value that the later steps leave alone and that holds no
    replacement pattern. *)
Definition harmless (data : object) (key : jsstring) : bool :=
  free_of LBRACE (inserted data key) && dollar_safe (inserted data key).

(** [x] is a zero, a finite number or an infinity of sign [s] (and is not
    NaN). *)
Definition has_sign (s : bool) (x : number) : bool :=
  match x with
  | S754_zero s' | S754_infinity s' | S754_finite s' _ _ => Bool.eqb s s'
  | S754_nan => false
  end.


(** [x] is a zero, an infinity, or a finite number without a fractional
    part. *)
Definition is_integer (x : number) : bool :=
  match x with
  | S754_zero _ | S754_infinity _ => true
  | S754_nan => false
  | S754_finite _ m (Zneg p) => Z.eqb (Zpos m mod Z.pow_pos 2 p) 0
  | S754_finite _ _ _ => true
  end.







(** A request with a recipient only. *)
Definition to_only (recipient : jsstring) : request :=
  Request (VStr recipient) VUndefined VUndefined None None None VUndefined
          AmountAbsent VUndefined VUndefined VUndefined None VUndefined.


(** The two answers differ in nothing but the text of a success message. *)
Definition same_but_message (a b : completion response) : Prop :=
  match a, b with
  | Ok (Response 200 (JSuccess _)), Ok (Response 200 (JSuccess _)) => True
  | _, _ => a = b
  end.


(** Settings with a company name only. *)
Definition named (name : jsstring) : settings :=
  Settings (VStr name) VUndefined VUndefined VUndefined
           VUndefined VUndefined VUndefined VUndefined.

(** A request that carries company settings only. *)
Definition with_settings (s : settings) : request :=
  Request VUndefined VUndefined VUndefined None None (Some s) VUndefined
          AmountAbsent VUndefined VUndefined VUndefined None VUndefined.

(** What the checkout endpoint may leave behind. *)
Definition checkout_outcome (w : world) (r : completion response * list call) : Prop :=
  r = (Ok (Response 400 (JError (Text (lit "Invalid amount")))), []) \/
  r = (Ok (Response 500 (JError EngineText)), []) \/
  exists cfg,
    snd r = [StripeCreate cfg] /\
    ((exists id url,
        stripe_create w cfg = Ok (id, url) /\
        fst r = Ok (Response 200 (JSession id url))) \/
     (exists e,
        stripe_create w cfg = Throw e /\
        fst r = Ok (Response 500 (JError (message_of e))))).

(* ================================================================== *)
(** * Properties *)
(* ================================================================== *)

(* ================================================================== *)
(** ** Basic facts: strings and objects *)
(* ================================================================== *)

Lemma str_eqb_eq (a b : jsstring) : str_eqb a b = true <-> a = b.
Proof.
  revert b; induction a as [|x a IH]; intros [|y b]; simpl; split; intro H;
    try reflexivity; try discriminate.
  - apply andb_true_iff in H as [H1 H2].
    apply N.eqb_eq in H1. apply IH in H2. now subst.
  - injection H as -> ->. rewrite N.eqb_refl. simpl. now apply IH.
Qed.

Lemma str_eqb_refl (a : jsstring) : str_eqb a a = true.
Proof. now apply str_eqb_eq. Qed.

Lemma str_eqb_neq (a b : jsstring) : str_eqb a b = false <-> a <> b.
Proof.
  split.
  - intros H E. apply str_eqb_eq in E. congruence.
  - intro H. destruct (str_eqb a b) eqn:E; [|reflexivity].
    apply str_eqb_eq in E. contradiction.
Qed.

Lemma str_eqb_sym (a b : jsstring) : str_eqb a b = str_eqb b a.
Proof.
  destruct (str_eqb a b) eqn:E; symmetry.
  - apply str_eqb_eq in E. subst. apply str_eqb_refl.
  - apply str_eqb_neq. apply str_eqb_neq in E. congruence.
Qed.

Lemma own_set_property (o : object) (k k' : jsstring) (v : value) :
  own (set_property o k v) k' = if str_eqb k k' then Some v else own o k'.
Proof.
  induction o as [|[j u] o IH]; simpl.
  - reflexivity.
  - destruct (str_eqb j k) eqn:Ejk; simpl.
    + apply str_eqb_eq in Ejk. subst. now destruct (str_eqb _ k').
    + rewrite IH. destruct (str_eqb j k') eqn:Ejk'; [|reflexivity].
      apply str_eqb_eq in Ejk'. subst. now rewrite str_eqb_sym, Ejk.
Qed.

Lemma own_In (o : object) (k : jsstring) :
  own o k <> None <-> In k (List.map fst o).
Proof.
  induction o as [|[j u] o IH]; simpl.
  - split; [congruence | tauto].
  - destruct (str_eqb j k) eqn:E.
    + apply str_eqb_eq in E. split; [now left | congruence].
    + apply str_eqb_neq in E. rewrite IH. split; [now right | intros [H|H]; tauto].
Qed.

Lemma In_insert_index n k l x :
  In x (List.map snd (insert_index n k l)) <-> x = k \/ In x (List.map snd l).
Proof.
  induction l as [|[m j] l IH]; simpl.
  - intuition.
  - destruct (N.ltb n m); simpl; [intuition|]. rewrite IH. intuition.
Qed.

(** [Object.keys] lists exactly the own keys. *)
Lemma In_Object_keys (o : object) (k : jsstring) :
  In k (Object_keys o) <-> In k (List.map fst o).
Proof.
  unfold Object_keys. rewrite in_app_iff.
  induction o as [|[j u] o IH]; simpl.
  - tauto.
  - destruct (array_index j); simpl.
    + rewrite In_insert_index. intuition.
    + intuition.
Qed.

Lemma own_fold_set (src : object) (ks : list jsstring) (target : object) (k : jsstring) :
  own (fold_left (fun o j => set_property o j (Get src j)) ks target) k =
  if existsb (str_eqb k) ks then Some (Get src k) else own target k.
Proof.
  revert target; induction ks as [|j ks IH]; intro target; simpl.
  - reflexivity.
  - rewrite IH, own_set_property.
    destruct (existsb (str_eqb k) ks) eqn:E.
    + now rewrite orb_true_r.
    + rewrite orb_false_r. destruct (str_eqb j k) eqn:Ejk.
      * apply str_eqb_eq in Ejk. subst j. now rewrite str_eqb_refl.
      * now rewrite str_eqb_sym, Ejk.
Qed.

Lemma existsb_str_In (k : jsstring) (ks : list jsstring) :
  existsb (str_eqb k) ks = true <-> In k ks.
Proof.
  rewrite existsb_exists. split.
  - intros [x [Hx E]]. apply str_eqb_eq in E. now subst.
  - intro H. exists k. split; [assumption | apply str_eqb_refl].
Qed.

(** A spread property wins over the one already on the literal; the
    others stay. *)
Lemma own_spread (target src : object) (k : jsstring) :
  own (spread target (Some src)) k =
  match own src k with
  | Some v => Some v
  | None => own target k
  end.
Proof.
  unfold spread. rewrite own_fold_set.
  destruct (existsb (str_eqb k) (Object_keys src)) eqn:E.
  - apply existsb_str_In, In_Object_keys, own_In in E.
    unfold Get. destruct (own src k); [reflexivity | congruence].
  - destruct (own src k) eqn:Ek; [|reflexivity].
    assert (H : own src k <> None) by congruence.
    apply own_In, In_Object_keys, existsb_str_In in H. congruence.
Qed.

(* ================================================================== *)
(** ** The matcher on literals *)
(* ================================================================== *)

Lemma starts_with_app (w t : jsstring) : starts_with w (w ++ t) = true.
Proof. induction w as [|c w IH]; simpl; [reflexivity|]. now rewrite N.eqb_refl. Qed.

Lemma starts_with_split (w s : jsstring) :
  starts_with w s = true -> s = w ++ skipn (length w) s.
Proof.
  revert s; induction w as [|c w IH]; intros [|x s]; simpl; try discriminate;
    try reflexivity.
  intro H. apply andb_true_iff in H as [H1 H2]. apply N.eqb_eq in H1. subst.
  f_equal. now apply IH.
Qed.

Lemma skipn_length_app (w t : jsstring) : skipn (length w) (w ++ t) = t.
Proof. induction w; simpl; auto. Qed.

Lemma firstn_length_app (w t : jsstring) : firstn (length w) (w ++ t) = w.
Proof. induction w; simpl; [now destruct t | now f_equal]. Qed.

Lemma length_app_minus (w t : jsstring) : length (w ++ t) - length t = length w.
Proof. rewrite length_app. lia. Qed.

Lemma rmatch_RLit (w : jsstring) (k : cont) (s : jsstring) (caps : captures) :
  rmatch (RLit w) k s caps =
  if starts_with w s then k (skipn (length w) s) caps else None.
Proof.
  revert s; induction w as [|c w IH]; intro s; simpl.
  - reflexivity.
  - destruct s as [|x s]; [reflexivity|].
    destruct (N.eqb x c); simpl; [apply IH | reflexivity].
Qed.

Lemma rmatch_RLit_app (w : jsstring) (k : cont) (t : jsstring) (caps : captures) :
  rmatch (RLit w) k (w ++ t) caps = k t caps.
Proof. now rewrite rmatch_RLit, starts_with_app, skipn_length_app. Qed.

Lemma group_count_RLit (w : jsstring) : group_count (RLit w) = 0.
Proof. induction w; simpl; auto. Qed.

Lemma exec_at_RLit (w s : jsstring) :
  exec_at (RLit w) s =
  if starts_with w s then Some (length w, []) else None.
Proof.
  unfold exec_at. rewrite rmatch_RLit, group_count_RLit.
  destruct (starts_with w s) eqn:E; [|reflexivity].
  apply starts_with_split in E. rewrite E at 1.
  now rewrite length_app_minus.
Qed.

(** A pattern that begins with the literal [w] only matches where [w]
    stands. *)
Lemma exec_at_prefix (w : jsstring) (r : regex) (s : jsstring) :
  starts_with w s = false -> exec_at (RSeq (RLit w) r) s = None.
Proof. intro H. unfold exec_at. simpl. now rewrite rmatch_RLit, H. Qed.

(* ================================================================== *)
(** ** The scan of a global replace *)
(* ================================================================== *)

Section Scan.
Variable r : regex.
Variable rep : match_info -> jsstring.

Lemma replace_go_cons (c : code_unit) (s seen : jsstring) :
  replace_go r rep seen 0 (c :: s) =
  match exec_at r (c :: s) with
  | Some (len, caps) =>
      rep (MatchInfo (firstn len (c :: s)) caps seen (skipn len (c :: s))) ++
      match len with
      | O => c :: replace_go r rep (seen ++ [c]) 0 s
      | S n => replace_go r rep (seen ++ [c]) n s
      end
  | None => c :: replace_go r rep (seen ++ [c]) 0 s
  end.
Proof. reflexivity. Qed.

(** Passing over the code units of a match. *)
Lemma replace_go_skip (m rest seen : jsstring) :
  replace_go r rep seen (length m) (m ++ rest) = replace_go r rep (seen ++ m) 0 rest.
Proof.
  revert seen; induction m as [|c m IH]; intro seen; simpl.
  - rewrite app_nil_r. now destruct rest.
  - rewrite IH, <- app_assoc. reflexivity.
Qed.

(** A stretch where no match starts is copied. *)
Lemma replace_go_copy (u rest seen : jsstring) :
  (forall a b, u = a ++ b -> b <> [] -> exec_at r (b ++ rest) = None) ->
  replace_go r rep seen 0 (u ++ rest) = u ++ replace_go r rep (seen ++ u) 0 rest.
Proof.
  revert seen; induction u as [|c u IH]; intros seen H.
  - simpl. now rewrite app_nil_r.
  - rewrite <- app_comm_cons, replace_go_cons, app_comm_cons.
    rewrite (H [] (c :: u) eq_refl ltac:(discriminate)).
    rewrite IH, <- app_assoc; [reflexivity|].
    intros a b E Hb. apply (H (c :: a) b); [now rewrite E | assumption].
Qed.

(** A non-empty match is replaced and the scan resumes after it. *)
Lemma replace_go_match (m rest seen : jsstring) (caps : captures) :
  m <> [] ->
  exec_at r (m ++ rest) = Some (length m, caps) ->
  replace_go r rep seen 0 (m ++ rest) =
  rep (MatchInfo m caps seen rest) ++ replace_go r rep (seen ++ m) 0 rest.
Proof.
  intros Hm E. destruct m as [|c m]; [contradiction|].
  rewrite <- app_comm_cons, replace_go_cons, app_comm_cons, E.
  rewrite firstn_length_app, skipn_length_app.
  f_equal. cbn [length].
  rewrite (replace_go_skip m rest (seen ++ [c])), <- app_assoc.
  reflexivity.
Qed.

Lemma replace_go_end (seen : jsstring) :
  exec_at r [] = None -> replace_go r rep seen 0 [] = [].
Proof. intro H. simpl. now rewrite H. Qed.
End Scan.

(* ================================================================== *)
(** ** Code units *)
(* ================================================================== *)

(** Replaces every [lit "..."] of the goal by the list it stands for. *)
Ltac eval_lits :=
  repeat match goal with
         | |- context [lit ?s] =>
             let x := eval vm_compute in (lit s) in change (lit s) with x
         end.

Lemma is_word_bounds (c : code_unit) :
  is_word c = true ->
  (97 <= c <= 122 \/ 65 <= c <= 90 \/ 48 <= c <= 57 \/ c = 95)%N.
Proof.
  unfold is_word, in_range.
  rewrite !orb_true_iff, !andb_true_iff, !N.leb_le, N.eqb_eq. tauto.
Qed.

Lemma is_word_plain (c : code_unit) :
  is_word c = true ->
  N.eqb c BACKSLASH = false /\ N.eqb c DOT = false /\ syntax_char c = false.
Proof.
  intro H. apply is_word_bounds in H.
  repeat split.
  - apply N.eqb_neq. unfold BACKSLASH. lia.
  - apply N.eqb_neq. unfold DOT. lia.
  - destruct (syntax_char c) eqn:E; [|reflexivity].
    unfold syntax_char, has_unit in E. vm_compute lit in E. simpl in E.
    rewrite !orb_true_iff, !N.eqb_eq in E. lia.
Qed.

Lemma is_word_not (c x : code_unit) :
  is_word c = true -> is_word x = false -> N.eqb c x = false.
Proof.
  intros Hc Hx. apply N.eqb_neq. intros ->. congruence.
Qed.

Lemma free_of_cons (c x : code_unit) (s : jsstring) :
  free_of c (x :: s) = true <-> x <> c /\ free_of c s = true.
Proof.
  unfold free_of, has_unit. simpl. rewrite negb_orb, andb_true_iff, negb_true_iff.
  rewrite N.eqb_neq. intuition congruence.
Qed.

Lemma free_of_app (c : code_unit) (a b : jsstring) :
  free_of c (a ++ b) = true <-> free_of c a = true /\ free_of c b = true.
Proof.
  unfold free_of, has_unit. rewrite existsb_app, negb_orb, andb_true_iff. tauto.
Qed.

Lemma free_of_suffix_head (c x : code_unit) (u a b : jsstring) :
  free_of c u = true -> u = a ++ x :: b -> N.eqb x c = false.
Proof.
  intros H ->. apply free_of_app in H as [_ H]. apply free_of_cons in H as [H _].
  now apply N.eqb_neq.
Qed.

Lemma word_free_of (c : code_unit) (k : jsstring) :
  is_word c = false -> word k = true -> free_of c k = true.
Proof.
  intros Hc. induction k as [|x k IH]; simpl; [reflexivity|].
  intro H. apply andb_true_iff in H as [Hx Hk]. apply free_of_cons. split.
  - intros ->. congruence.
  - now apply IH.
Qed.

(* ================================================================== *)
(** ** The pattern of a merge tag *)
(* ================================================================== *)

Lemma RegExp_literal_app (k rest : jsstring) :
  forallb literal_char k = true ->
  RegExp (k ++ rest) =
  option_map (fun r => fold_right (fun c r => RSeq (RChar c) r) r k) (RegExp rest).
Proof.
  induction k as [|c k IH]; simpl; intro H.
  - now destruct (RegExp rest).
  - apply andb_true_iff in H as [Hc Hk].
    unfold literal_char in Hc.
    apply andb_true_iff in Hc as [Hc H3]. apply andb_true_iff in Hc as [H1 H2].
    apply negb_true_iff in H1, H2, H3.
    rewrite H1, H2, H3, (IH Hk). simpl. now destruct (RegExp rest).
Qed.

Lemma RegExp_literal_tag (key : jsstring) :
  forallb literal_char key = true ->
  RegExp (lit "\{\{" ++ key ++ lit "\}\}") = Some (RLit (tag key)).
Proof.
  intro H. eval_lits. cbn [app RegExp].
  replace (N.eqb 92 BACKSLASH) with true by reflexivity.
  replace (syntax_char 123) with true by reflexivity. cbn iota.
  rewrite (RegExp_literal_app _ _ H).
  replace (RegExp [92; 125; 92; 125]%N)
    with (Some (RLit [RBRACE; RBRACE])) by reflexivity.
  unfold RLit, tag. simpl. now rewrite fold_right_app.
Qed.

Lemma word_literal (k : jsstring) :
  word k = true -> forallb literal_char k = true.
Proof.
  unfold word. rewrite !forallb_forall. intros H c Hc.
  destruct (is_word_plain c (H c Hc)) as [H1 [H2 H3]].
  unfold literal_char. now rewrite H1, H2, H3.
Qed.

(** For a key that is a word, [new RegExp(`\\{\\{${key}\\}\\}`, 'g')]
    matches the tag [{{key}}] and nothing else. *)
Lemma RegExp_tag (key : jsstring) :
  word key = true ->
  RegExp (lit "\{\{" ++ key ++ lit "\}\}") = Some (RLit (tag key)).
Proof. intro H. now apply RegExp_literal_tag, word_literal. Qed.

Lemma mergeTag_word (data : object) (result key : jsstring) :
  word key = true ->
  mergeTag data result key =
  Ok (replace_str (RLit (tag key)) (inserted data key) result).
Proof. intro H. unfold mergeTag. now rewrite (RegExp_tag _ H). Qed.

(** A replacement string without a dollar sign is inserted as it is. *)
Lemma GetSubstitution_plain (m : match_info) (t : jsstring) :
  free_of DOLLAR t = true -> GetSubstitution m t = t.
Proof.
  induction t as [|c t IH]; [reflexivity|].
  intro H. apply free_of_cons in H as [Hc Ht].
  cbn [GetSubstitution]. apply N.eqb_neq in Hc. rewrite Hc. simpl.
  now rewrite IH.
Qed.

Lemma replace_go_ext (r : regex) (f g : match_info -> jsstring) :
  (forall m, f m = g m) ->
  forall s seen skip, replace_go r f seen skip s = replace_go r g seen skip s.
Proof.
  intro H. induction s as [|c s IH]; intros seen skip.
  - destruct skip; simpl; [|reflexivity].
    destruct (exec_at r []) as [[len caps]|]; [|reflexivity]. now rewrite H.
  - destruct skip as [|n].
    + rewrite !replace_go_cons.
      destruct (exec_at r (c :: s)) as [[[|n] caps]|]; rewrite ?H, ?IH; reflexivity.
    + simpl. apply IH.
Qed.

Lemma replace_str_plain (r : regex) (t s : jsstring) :
  free_of DOLLAR t = true ->
  replace_str r t s = replace_go r (fun _ => t) [] 0 s.
Proof.
  intro H. unfold replace_str. apply replace_go_ext.
  intro m. now apply GetSubstitution_plain.
Qed.

(* ================================================================== *)
(** ** Merge tags on a template of text and tags *)
(* ================================================================== *)


Lemma items_str_cons (i : item) (l : list item) :
  items_str (i :: l) = item_str i ++ items_str l.
Proof. reflexivity. Qed.

(** Two words followed by a closing brace: one is a prefix of the other
    only if they are equal. *)
Lemma starts_with_word (key k t1 t2 : jsstring) :
  word key = true -> word k = true ->
  starts_with (key ++ RBRACE :: t1) (k ++ RBRACE :: t2) = true -> key = k.
Proof.
  unfold word.
  revert k; induction key as [|c key IH]; intros [|x k];
    cbn [app starts_with forallb]; intros Hkey Hk H.
  - reflexivity.
  - apply andb_true_iff in Hk as [Hx _]. apply andb_true_iff in H as [H _].
    rewrite (is_word_not x RBRACE Hx eq_refl) in H. discriminate.
  - apply andb_true_iff in Hkey as [Hc _]. apply andb_true_iff in H as [H _].
    rewrite N.eqb_sym, (is_word_not c RBRACE Hc eq_refl) in H. discriminate.
  - apply andb_true_iff in Hkey as [_ Hkey]. apply andb_true_iff in Hk as [_ Hk].
    apply andb_true_iff in H as [H1 H2]. apply N.eqb_eq in H1. subst.
    f_equal. now apply IH.
Qed.

(** Inside a tag, past its first brace, no pattern that begins with two
    braces can match; nor can it inside brace-free text. *)
Lemma no_open_in_text (w u rest a b : jsstring) :
  free_of LBRACE u = true -> u = a ++ b -> b <> [] ->
  starts_with (LBRACE :: w) (b ++ rest) = false.
Proof.
  intros H E Hb. destruct b as [|x b]; [contradiction|].
  cbn [app starts_with]. now rewrite (free_of_suffix_head _ _ _ _ _ H E).
Qed.

Lemma no_open_in_tag (w k rest a b : jsstring) :
  word k = true -> tag k = a ++ b -> a <> [] -> b <> [] ->
  starts_with (LBRACE :: LBRACE :: w) (b ++ rest) = false.
Proof.
  intros Hk E Ha Hb.
  assert (F : free_of LBRACE (k ++ [RBRACE; RBRACE]) = true).
  { apply free_of_app. split; [now apply word_free_of | reflexivity]. }
  destruct a as [|a1 [|a2 a]]; [contradiction| |].
  - injection E as _ E. subst b.
    destruct (k ++ [RBRACE; RBRACE]) as [|x u] eqn:Eu; [now destruct k|].
    apply free_of_cons in F as [F _]. apply N.eqb_neq in F.
    cbn [app starts_with]. rewrite F. cbn [andb]. apply andb_false_r.
  - injection E as _ _ E. now apply (no_open_in_text _ _ _ _ _ F E).
Qed.

Lemma wf_merge_item (key v : jsstring) (i : item) :
  free_of LBRACE v = true -> wf_item i = true -> wf_item (merge_item key v i) = true.
Proof. intros Hv. destruct i as [s|k]; simpl; [auto|]. now destruct (str_eqb k key). Qed.

(** One tag pattern on one item: the tag of the key is replaced, any other
    item is copied. *)
Lemma merge_item_step (key v : jsstring) (i : item) (rest seen : jsstring) :
  word key = true -> wf_item i = true ->
  exists seen',
    replace_go (RLit (tag key)) (fun _ => v) seen 0 (item_str i ++ rest) =
    item_str (merge_item key v i)
      ++ replace_go (RLit (tag key)) (fun _ => v) seen' 0 rest.
Proof.
  intros Hkey Hi. destruct i as [s|k]; cbn [item_str merge_item wf_item] in *.
  - eexists. rewrite replace_go_copy; [reflexivity|].
    intros a b E Hb. rewrite exec_at_RLit.
    unfold tag. now rewrite (no_open_in_text _ _ _ _ _ Hi E Hb).
  - destruct (str_eqb k key) eqn:Ek.
    + apply str_eqb_eq in Ek. subst k. eexists.
      rewrite replace_go_match with (caps := []);
        [reflexivity | discriminate |].
      now rewrite exec_at_RLit, starts_with_app.
    + eexists. rewrite replace_go_copy; [reflexivity|].
      intros a b E Hb. rewrite exec_at_RLit.
      destruct a as [|a1 a].
      * simpl in E. subst b. unfold tag. cbn [app starts_with].
        rewrite !N.eqb_refl. cbn [andb].
        destruct (starts_with (key ++ [RBRACE; RBRACE])
                    ((k ++ [RBRACE; RBRACE]) ++ rest)) eqn:S; [|reflexivity].
        rewrite <- app_assoc in S. simpl in S.
        apply starts_with_word in S; [|assumption..].
        apply str_eqb_neq in Ek. congruence.
      * unfold tag at 1.
        now rewrite (no_open_in_tag _ _ _ _ _ Hi E ltac:(discriminate) Hb).
Qed.

(** A block marker, [{{#...] or [{{/...], holds no merge tag of a word
    key. *)
Lemma merge_marker_step (key v : jsstring) (c : code_unit) (u rest seen : jsstring) :
  word key = true ->
  is_word c = false -> N.eqb c RBRACE = false ->
  free_of LBRACE (c :: u) = true ->
  exists seen',
    replace_go (RLit (tag key)) (fun _ => v) seen 0
      ((LBRACE :: LBRACE :: c :: u) ++ rest) =
    (LBRACE :: LBRACE :: c :: u)
      ++ replace_go (RLit (tag key)) (fun _ => v) seen' 0 rest.
Proof.
  intros Hkey Hc Hr Hu. eexists. rewrite replace_go_copy; [reflexivity|].
  intros a b E Hb. rewrite exec_at_RLit.
  assert (S : starts_with (tag key) (b ++ rest) = false); [|now rewrite S].
  destruct a as [|a1 [|a2 a]].
  - simpl in E. subst b. unfold tag. cbn [app starts_with].
    rewrite !N.eqb_refl. cbn [andb].
    destruct key as [|x key]; cbn [app starts_with].
    + now rewrite Hr.
    + simpl in Hkey. apply andb_true_iff in Hkey as [Hx _].
      now rewrite N.eqb_sym, (is_word_not x c Hx Hc).
  - injection E as _ E. subst b. unfold tag. cbn [app starts_with].
    apply free_of_cons in Hu as [Hu _]. apply N.eqb_neq in Hu.
    rewrite Hu. cbn [andb]. apply andb_false_r.
  - injection E as _ _ E. unfold tag.
    now apply (no_open_in_text _ (c :: u) _ a b).
Qed.

Lemma block_open_marker (k : jsstring) :
  block_open k = LBRACE :: LBRACE :: HASH :: lit "if " ++ k ++ lit "}}".
Proof. reflexivity. Qed.

Lemma block_close_marker :
  block_close = LBRACE :: LBRACE :: SLASH :: lit "if}}".
Proof. reflexivity. Qed.

Lemma block_open_free (k : jsstring) :
  word k = true -> free_of LBRACE (HASH :: lit "if " ++ k ++ lit "}}") = true.
Proof.
  intro H. apply free_of_cons. split; [discriminate|].
  apply free_of_app. split; [reflexivity|].
  apply free_of_app. split; [now apply word_free_of | reflexivity].
Qed.

Lemma merge_items_step (key v : jsstring) (items : list item) (rest : jsstring) :
  word key = true -> forallb wf_item items = true ->
  forall seen, exists seen',
    replace_go (RLit (tag key)) (fun _ => v) seen 0 (items_str items ++ rest) =
    items_str (List.map (merge_item key v) items)
      ++ replace_go (RLit (tag key)) (fun _ => v) seen' 0 rest.
Proof.
  intros Hkey. induction items as [|i items IH]; intros Hwf seen.
  - exists seen. reflexivity.
  - simpl in Hwf. apply andb_true_iff in Hwf as [Hi Hwf].
    cbn [List.map]. rewrite !items_str_cons, <- !app_assoc.
    destruct (merge_item_step key v i (items_str items ++ rest) seen Hkey Hi)
      as [s1 ->].
    destruct (IH Hwf s1) as [s2 ->]. exists s2. now rewrite <- !app_assoc.
Qed.

Lemma merge_segment_step (key v : jsstring) (s : segment) (rest seen : jsstring) :
  word key = true -> wf_segment s = true ->
  exists seen',
    replace_go (RLit (tag key)) (fun _ => v) seen 0 (segment_str s ++ rest) =
    segment_str (map_segment (merge_item key v) s)
      ++ replace_go (RLit (tag key)) (fun _ => v) seen' 0 rest.
Proof.
  intros Hkey Hs. destruct s as [i|k body]; cbn [segment_str map_segment wf_segment] in *.
  - now apply merge_item_step.
  - apply andb_true_iff in Hs as [Hs Hb]. apply andb_true_iff in Hs as [_ Hk].
    rewrite <- !app_assoc, block_open_marker, block_close_marker.
    destruct (merge_marker_step key v HASH (lit "if " ++ k ++ lit "}}")
                (items_str body ++ (LBRACE :: LBRACE :: SLASH :: lit "if}}") ++ rest)
                seen Hkey eq_refl eq_refl (block_open_free k Hk)) as [s1 ->].
    destruct (merge_items_step key v body
                ((LBRACE :: LBRACE :: SLASH :: lit "if}}") ++ rest) Hkey Hb s1)
      as [s2 ->].
    destruct (merge_marker_step key v SLASH (lit "if}}") rest s2 Hkey
                eq_refl eq_refl eq_refl) as [s3 ->].
    exists s3. now rewrite <- !app_assoc.
Qed.

Lemma template_str_cons (s : segment) (segs : list segment) :
  template_str (s :: segs) = segment_str s ++ template_str segs.
Proof. reflexivity. Qed.

Lemma merge_segments (key v : jsstring) (segs : list segment) :
  word key = true -> forallb wf_segment segs = true ->
  forall seen,
    replace_go (RLit (tag key)) (fun _ => v) seen 0 (template_str segs) =
    template_str (List.map (map_segment (merge_item key v)) segs).
Proof.
  intros Hkey. induction segs as [|s segs IH]; intros Hwf seen.
  - apply replace_go_end. now rewrite exec_at_RLit.
  - simpl in Hwf. apply andb_true_iff in Hwf as [Hs Hwf].
    cbn [List.map]. rewrite !template_str_cons.
    destruct (merge_segment_step key v s (template_str segs) seen Hkey Hs)
      as [s1 ->].
    now rewrite IH.
Qed.

Lemma merge_all_Txt (data : object) (keys : list jsstring) (s : jsstring) :
  merge_all data keys (Txt s) = Txt s.
Proof. induction keys; simpl; auto. Qed.

Lemma merge_all_Tag (data : object) (keys : list jsstring) (k : jsstring) :
  merge_all data keys (Tag k) =
  if existsb (str_eqb k) keys then Txt (inserted data k) else Tag k.
Proof.
  induction keys as [|key keys IH]; [reflexivity|].
  unfold merge_all in *. cbn [fold_left merge_item existsb].
  destruct (str_eqb k key) eqn:E.
  - apply str_eqb_eq in E. subst. apply merge_all_Txt.
  - exact IH.
Qed.

Lemma wf_map_segment (f : item -> item) (s : segment) :
  (forall i, wf_item i = true -> wf_item (f i) = true) ->
  wf_segment s = true -> wf_segment (map_segment f s) = true.
Proof.
  intros Hf. destruct s as [i|k body]; cbn [map_segment wf_segment]; [auto|].
  intro H. apply andb_true_iff in H as [Hk Hb]. rewrite Hk. cbn [andb].
  rewrite forallb_forall in *. intros i Hi.
  apply in_map_iff in Hi as [j [<- Hj]]. auto.
Qed.

Lemma wf_map_segments (f : item -> item) (segs : list segment) :
  (forall i, wf_item i = true -> wf_item (f i) = true) ->
  forallb wf_segment segs = true ->
  forallb wf_segment (List.map (map_segment f) segs) = true.
Proof.
  intros Hf H. rewrite forallb_forall in *. intros s Hs.
  apply in_map_iff in Hs as [j [<- Hj]]. apply wf_map_segment; auto.
Qed.

Lemma map_segment_compose (f g : item -> item) (s : segment) :
  map_segment g (map_segment f s) = map_segment (fun i => g (f i)) s.
Proof. destruct s as [i|k body]; cbn [map_segment]; [reflexivity|]. now rewrite map_map. Qed.

(** The [forEach] over word keys with inert values, on a well-formed
    template. *)
Lemma mergeTags_segments (data : object) (keys : list jsstring) :
  forallb word keys = true ->
  forallb (inert data) keys = true ->
  forall segs,
    forallb wf_segment segs = true ->
    mergeTags data keys (template_str segs) =
    Ok (template_str (List.map (map_segment (merge_all data keys)) segs)).
Proof.
  induction keys as [|key keys IH]; intros Hw Hi segs Hwf.
  - cbn [mergeTags]. f_equal. f_equal. rewrite <- (map_id segs) at 1.
    apply map_ext. intros [i|k body]; cbn [map_segment]; [reflexivity|].
    now rewrite map_id.
  - simpl in Hw, Hi.
    apply andb_true_iff in Hw as [Hkey Hw]. apply andb_true_iff in Hi as [Hv Hi].
    apply andb_true_iff in Hv as [Hb Hd].
    cbn [mergeTags]. rewrite mergeTag_word by assumption. cbn [bind].
    rewrite replace_str_plain by assumption.
    rewrite merge_segments by assumption.
    rewrite IH; [| assumption | assumption |].
    + rewrite map_map. f_equal. f_equal. apply map_ext. intro s.
      now rewrite map_segment_compose.
    + apply wf_map_segments; [|assumption].
      intros i Hwi. now apply wf_merge_item.
Qed.

Lemma render_merge_all (data : object) (i : item) :
  item_str (merge_all data (Object_keys data) i) = render_item data i.
Proof.
  destruct i as [s|k].
  - now rewrite merge_all_Txt.
  - rewrite merge_all_Tag. cbn [render_item].
    destruct (existsb (str_eqb k) (Object_keys data)) eqn:E.
    + apply existsb_str_In, In_Object_keys, own_In in E.
      now destruct (own data k).
    + destruct (own data k) eqn:Ek; [|reflexivity].
      assert (H : own data k <> None) by congruence.
      apply own_In, In_Object_keys, existsb_str_In in H. congruence.
Qed.

Lemma wf_merge_all (data : object) (keys : list jsstring) (i : item) :
  forallb (inert data) keys = true ->
  wf_item i = true -> wf_item (merge_all data keys i) = true.
Proof.
  revert i; induction keys as [|key keys IH]; intros i Hi Hwf; [assumption|].
  simpl in Hi. apply andb_true_iff in Hi as [Hv Hi].
  apply andb_true_iff in Hv as [Hb _].
  unfold merge_all. cbn [fold_left]. apply IH; [assumption|].
  now apply wf_merge_item.
Qed.

(** No block marker starts inside an item. *)
Lemma no_marker_in_item (c : code_unit) (w : jsstring) (i : item)
    (rest a b : jsstring) :
  is_word c = false -> N.eqb RBRACE c = false ->
  wf_item i = true -> item_str i = a ++ b -> b <> [] ->
  starts_with (LBRACE :: LBRACE :: c :: w) (b ++ rest) = false.
Proof.
  intros Hc Hr Hi E Hb. destruct i as [s|k]; cbn [item_str wf_item] in *.
  - now apply (no_open_in_text _ s _ a b).
  - destruct a as [|a1 a].
    + simpl in E. subst b. unfold tag. cbn [app starts_with].
      rewrite !N.eqb_refl. cbn [andb].
      destruct k as [|x k]; cbn [app starts_with].
      * now rewrite Hr.
      * simpl in Hi. apply andb_true_iff in Hi as [Hx _].
        now rewrite (is_word_not x c Hx Hc).
    + now apply (no_open_in_tag _ k _ (a1 :: a) b).
Qed.

(* ================================================================== *)
(** ** Conditional blocks (C2) *)
(* ================================================================== *)

Lemma occurs_suffix (w a b : jsstring) :
  occurs w (a ++ b) = false -> starts_with w b = false.
Proof.
  induction a as [|x a IH]; simpl.
  - destruct b; simpl; intro H; apply orb_false_iff in H; tauto.
  - intro H. apply orb_false_iff in H as [_ H]. auto.
Qed.

(** Peels the conjuncts of a [starts_with] hypothesis until one of them
    compares two different constants. *)
Ltac peel H :=
  cbn [app starts_with] in H;
  repeat (let E := fresh "E" in
          apply andb_true_iff in H as [E H]; try discriminate E);
  try discriminate H.


(** Nor has [{{/if}}]. *)
Lemma straddle_close (content a b t : jsstring) :
  occurs block_close content = false -> content = a ++ b -> b <> [] ->
  starts_with block_close (b ++ block_close ++ t) = false.
Proof.
  unfold block_close.
  intros H -> Hb. apply occurs_suffix in H. revert H. eval_lits. intro H.
  destruct (starts_with _ (b ++ _)) eqn:S; [exfalso | reflexivity].
  destruct b as [|b1 [|b2 [|b3 [|b4 [|b5 [|b6 [|b7 b]]]]]]];
    [contradiction | peel S ..].
  cbn [starts_with] in H.
  rewrite E, E0, E1, E2, E3, E4, E5 in H. discriminate.
Qed.

(** A greedy run over [u] that stops at [t] succeeds at once when the
    rest of the pattern accepts [t]. *)
Lemma star_greedy_run (p : code_unit -> bool)
    (k : jsstring -> option (jsstring * captures)) (u t : jsstring)
    (r : jsstring * captures) :
  forallb p u = true ->
  match t with [] => true | y :: _ => negb (p y) end = true ->
  k t = Some r ->
  star_greedy p k (u ++ t) = Some r.
Proof.
  intros Hu Ht Hk. induction u as [|x u IH]; cbn [app].
  - destruct t as [|y t]; [assumption|].
    apply negb_true_iff in Ht. cbn [star_greedy]. now rewrite Ht.
  - cbn [star_greedy]. simpl in Hu. apply andb_true_iff in Hu as [Hx Hu].
    now rewrite Hx, (IH Hu).
Qed.

(** A lazy run stops at the first place where the rest of the pattern
    accepts. *)
Lemma star_lazy_first (p : code_unit -> bool)
    (k : jsstring -> option (jsstring * captures)) (u t : jsstring)
    (r : jsstring * captures) :
  forallb p u = true ->
  (forall a b, u = a ++ b -> b <> [] -> k (b ++ t) = None) ->
  k t = Some r ->
  star_lazy p k (u ++ t) = Some r.
Proof.
  intros Hu Hn Hk. induction u as [|x u IH].
  - simpl. destruct t; simpl; now rewrite Hk.
  - simpl in Hu. apply andb_true_iff in Hu as [Hx Hu].
    cbn [app star_lazy].
    pose proof (Hn [] (x :: u) eq_refl ltac:(discriminate)) as H0.
    cbn [app] in H0. rewrite H0, Hx.
    apply IH; [assumption|].
    intros a b E Hb. apply (Hn (x :: a) b); [now rewrite E | assumption].
Qed.

Lemma firstn_minus (u v : jsstring) :
  firstn (length (u ++ v) - length v) (u ++ v) = u.
Proof. now rewrite length_app_minus, firstn_length_app. Qed.

Lemma forallb_is_any (u : jsstring) : forallb is_any u = true.
Proof. induction u; simpl; auto. Qed.

(** The conditional pattern on a block: it takes the block up to the
    nearest [{{/if}}] and captures the condition and the content. *)
Lemma exec_at_block (k content t : jsstring) :
  nonempty k = true -> word k = true ->
  occurs block_close content = false ->
  exec_at re_conditional (block_open k ++ content ++ block_close ++ t) =
  Some (length (block_open k ++ content ++ block_close),
        [Some k; Some content]).
Proof.
  intros Hne Hk Hc. unfold exec_at.
  replace (group_count re_conditional) with 2 by reflexivity.
  unfold re_conditional, block_open.
  change (lit "{{/if}}") with block_close.
  rewrite <- !app_assoc.
  cbn [rmatch group_count Nat.max repeat].
  rewrite rmatch_RLit_app.
  destruct k as [|x k]; [discriminate|].
  simpl in Hk. apply andb_true_iff in Hk as [Hx Hk].
  cbn [app rmatch]. rewrite Hx. unfold star.
  rewrite star_greedy_run with (r := (t, [Some (x :: k); Some content]));
    [| exact Hk | reflexivity |].
  - f_equal. f_equal. rewrite !length_app. cbn [length]. rewrite !length_app. lia.
  - cbn [set_capture]. rewrite rmatch_RLit_app.
    cbn [rmatch]. unfold star.
    rewrite star_lazy_first with (r := (t, [Some (x :: k); Some content]));
      [reflexivity | apply forallb_is_any | |].
    + intros a b E Hb. rewrite rmatch_RLit.
      now rewrite (straddle_close content a b t Hc E Hb).
    + rewrite rmatch_RLit_app. cbn [set_capture].
      rewrite (firstn_minus content), app_comm_cons, (firstn_minus (x :: k)).
      reflexivity.
Qed.

(** Conversely, wherever the conditional pattern matches, a block
    begins. *)
Lemma star_greedy_inv (p : code_unit -> bool)
    (k : jsstring -> option (jsstring * captures)) (s : jsstring)
    (r : jsstring * captures) :
  star_greedy p k s = Some r ->
  exists u t, s = u ++ t /\ forallb p u = true /\ k t = Some r.
Proof.
  induction s as [|c s IH]; cbn [star_greedy]; intro H.
  - now exists [], [].
  - destruct (p c) eqn:Hc; [|now exists [], (c :: s)].
    destruct (star_greedy p k s) as [r'|] eqn:E; [|now exists [], (c :: s)].
    destruct (IH H) as [u [t [-> [Hu Hk]]]].
    exists (c :: u), t. cbn [forallb app]. now rewrite Hc, Hu.
Qed.

Lemma star_lazy_inv (p : code_unit -> bool)
    (k : jsstring -> option (jsstring * captures)) (s : jsstring)
    (r : jsstring * captures) :
  star_lazy p k s = Some r -> exists u t, s = u ++ t /\ k t = Some r.
Proof.
  induction s as [|c s IH]; cbn [star_lazy]; intro H.
  - destruct (k []) eqn:E; [|discriminate]. exists [], []. now rewrite E.
  - destruct (k (c :: s)) eqn:E; [exists [], (c :: s); now rewrite E|].
    destruct (p c); [|discriminate].
    destruct (IH H) as [u [t [-> Hk]]]. now exists (c :: u), t.
Qed.

Lemma rmatch_RLit_inv (w : jsstring) (k : cont) (s : jsstring) (caps : captures)
    (r : jsstring * captures) :
  rmatch (RLit w) k s caps = Some r ->
  exists t, s = w ++ t /\ k t caps = Some r.
Proof.
  rewrite rmatch_RLit. destruct (starts_with w s) eqn:E; [|discriminate].
  intro H. exists (skipn (length w) s). split; [now apply starts_with_split | exact H].
Qed.

Lemma exec_at_conditional_inv (s : jsstring) :
  exec_at re_conditional s <> None -> begins_with_block s.
Proof.
  unfold exec_at. destruct (rmatch _ _ _ _) as [r|] eqn:M; [intros _ | congruence].
  unfold re_conditional in M. cbn [rmatch] in M.
  apply rmatch_RLit_inv in M as [t1 [-> M]].
  destruct t1 as [|x t1]; [discriminate|].
  destruct (is_word x) eqn:Hx; [|discriminate].
  unfold star in M. apply star_greedy_inv in M as [u [t2 [-> [Hu M]]]].
  apply rmatch_RLit_inv in M as [t3 [-> M]].
  cbn [rmatch] in M. unfold star in M.
  apply star_lazy_inv in M as [content [t4 [-> M]]].
  apply rmatch_RLit_inv in M as [t5 [-> _]].
  exists (x :: u), content, t5. repeat split.
  - unfold word. cbn [forallb]. now rewrite Hx.
  - unfold block_open, block_close. now rewrite <- !app_assoc.
Qed.

Lemma resolve_no_block (data : object) (u : jsstring) :
  ~ holds_block u -> resolveConditionals data u = u.
Proof.
  intro H. unfold resolveConditionals, replace_fn.
  rewrite <- (app_nil_r u) at 1.
  rewrite replace_go_copy, replace_go_end, app_nil_r; [reflexivity.. |].
  intros a b E Hb. rewrite app_nil_r.
  destruct (exec_at re_conditional b) eqn:X; [exfalso | reflexivity].
  apply H. exists a, b. split; [assumption|].
  apply exec_at_conditional_inv. congruence.
Qed.






(** An opening inside a block is content: the outer opening pairs with
    the first [{{/if}}] and the second one is left over. *)
Example nested_opening_pairs_with_nearest_close :
  resolveConditionals [(lit "a", VBool true); (lit "b", VBool false)]
    (lit "{{#if a}}x{{#if b}}y{{/if}}z{{/if}}") =
  lit "x{{#if b}}yz{{/if}}".
Proof. vm_compute. reflexivity. Qed.

(* ================================================================== *)
(** ** Merge tags on a well-formed template (C1) *)
(* ================================================================== *)

Lemma occurs_app_intro (w u t : jsstring) :
  (forall a b, u = a ++ b -> b <> [] -> starts_with w (b ++ t) = false) ->
  occurs w t = false ->
  occurs w (u ++ t) = false.
Proof.
  intros H Ht. induction u as [|x u IH]; [assumption|].
  cbn [app occurs]. apply orb_false_iff. split.
  - apply (H [] (x :: u) eq_refl). discriminate.
  - apply IH. intros a b E Hb. apply (H (x :: a) b); [now rewrite E | assumption].
Qed.

Lemma no_marker_in_items (c : code_unit) (w : jsstring) (items : list item) :
  is_word c = false -> N.eqb RBRACE c = false ->
  forallb wf_item items = true ->
  occurs (LBRACE :: LBRACE :: c :: w) (items_str items) = false.
Proof.
  intros Hc Hr. induction items as [|i items IH]; [reflexivity|].
  simpl. intro H. apply andb_true_iff in H as [Hi H].
  rewrite items_str_cons. apply occurs_app_intro; [|now apply IH].
  intros a b E Hb. now apply (no_marker_in_item c w i _ a b).
Qed.

Lemma resolve_segment_step (data : object) (s : segment) (rest seen : jsstring) :
  wf_segment s = true ->
  exists seen',
    replace_go re_conditional (keep_if data) seen 0 (segment_str s ++ rest) =
    resolved_segment data s
      ++ replace_go re_conditional (keep_if data) seen' 0 rest.
Proof.
  intro Hs. destruct s as [i|k body];
    cbn [segment_str resolved_segment wf_segment] in *.
  - eexists. rewrite replace_go_copy; [reflexivity|].
    intros a b E Hb. unfold re_conditional. apply exec_at_prefix.
    now apply (no_marker_in_item HASH (lit "if ") i rest a b).
  - apply andb_true_iff in Hs as [Hs Hb]. apply andb_true_iff in Hs as [Hn Hk].
    eexists. rewrite replace_go_match with (caps := [Some k; Some (items_str body)]).
    + reflexivity.
    + intro H. apply (f_equal (@length _)) in H.
      unfold block_close in H. rewrite !length_app in H. cbn in H. lia.
    + rewrite <- !app_assoc. apply exec_at_block; [assumption..|].
      rewrite block_close_marker. now apply no_marker_in_items.
Qed.

Lemma resolve_segments (data : object) (segs : list segment) :
  forallb wf_segment segs = true ->
  forall seen,
    replace_go re_conditional (keep_if data) seen 0 (template_str segs) =
    concat (List.map (resolved_segment data) segs).
Proof.
  induction segs as [|s segs IH]; intros Hwf seen; [reflexivity|].
  simpl in Hwf. apply andb_true_iff in Hwf as [Hs Hwf].
  rewrite template_str_cons.
  destruct (resolve_segment_step data s (template_str segs) seen Hs) as [s1 ->].
  now rewrite IH.
Qed.

Lemma render_resolved (data : object) (s : segment) :
  resolved_segment data (map_segment (merge_all data (Object_keys data)) s) =
  render_segment data s.
Proof.
  destruct s as [i|k body]; cbn [map_segment resolved_segment render_segment].
  - apply render_merge_all.
  - destruct (truthy_property data k); [|reflexivity].
    unfold items_str, render_items. rewrite map_map. f_equal.
    apply map_ext. intro i. apply render_merge_all.
Qed.

(** C1 as stated fails: a tag whose key is absent from the data mapping is
    not replaced by the empty string, it stays in the output. *)
Lemma absent_key_tag_stays :
  processTemplate (VStr (lit "Hi {{name}}")) [] = Ok (lit "Hi {{name}}") /\
  processTemplate (VStr (lit "Hi {{name}}")) [] <> Ok (lit "Hi ").
Proof. split; [reflexivity | discriminate]. Qed.

(** C1, amended. On a template of brace-free text, tags [{{k}}] with word
    names and conditional blocks of such text and tags, and a data mapping
    whose keys are words and whose values insert neither an opening brace
    nor a dollar sign: every tag of a key of the mapping is replaced by
    its value when that is truthy and by the empty string when it is
    falsy, and every tag of an absent key is left in place (a block goes
    with its tags when its condition is falsy); bold and line-break
    conversion then apply to the result. *)
Theorem merge_tags_replaced (segs : list segment) (data : object) :
  forallb wf_segment segs = true ->
  forallb word (List.map fst data) = true ->
  forallb (inert data) (List.map fst data) = true ->
  processTemplate (VStr (template_str segs)) data =
  Ok (convertNewlines (convertBold (concat (List.map (render_segment data) segs)))) /\
  (forall k, own data k = None -> render_item data (Tag k) = tag k) /\
  (forall k v, own data k = Some v -> ToBoolean v = true ->
               render_item data (Tag k) = ToString v) /\
  (forall k v, own data k = Some v -> ToBoolean v = false ->
               render_item data (Tag k) = []).
Proof.
  intros Hwf Hw Hi.
  assert (Hks : forall P, forallb P (List.map fst data) = true ->
                          forallb P (Object_keys data) = true).
  { intros P H. rewrite forallb_forall in *. intros k Hk.
    apply H. now apply In_Object_keys. }
  split; [|repeat split].
  - unfold processTemplate.
    rewrite mergeTags_segments by auto. cbn [bind].
    unfold resolveConditionals, replace_fn.
    change (fun m : match_info => _) with (keep_if data).
    rewrite resolve_segments.
    + do 3 f_equal. rewrite map_map. f_equal. apply map_ext. intro s.
      apply render_resolved.
    + apply wf_map_segments; [|assumption].
      intros i Hwi. apply wf_merge_all; [now apply Hks | assumption].
  - intros k Hk. simpl. now rewrite Hk.
  - intros k v Hk Hv. simpl. rewrite Hk. unfold inserted, Get, or_else.
    now rewrite Hk, Hv.
  - intros k v Hk Hv. simpl. rewrite Hk. unfold inserted, Get, or_else.
    now rewrite Hk, Hv.
Qed.

Lemma merge_tags_replaced_witness :
  processTemplate
    (VStr (lit "Dear {{name}}{{title}}, {{#if late}}sorry, {{/if}}{{#if day}}visit on {{day}}, {{slot}}{{/if}}."))
    [(lit "name", VStr (lit "Sam")); (lit "title", VNull);
     (lit "day", VStr (lit "Monday"))] =
  Ok (lit "Dear Sam, visit on Monday, {{slot}}.").
Proof.
  destruct (merge_tags_replaced
              [Plain (Txt (lit "Dear ")); Plain (Tag (lit "name"));
               Plain (Tag (lit "title")); Plain (Txt (lit ", "));
               Block (lit "late") [Txt (lit "sorry, ")];
               Block (lit "day") [Txt (lit "visit on "); Tag (lit "day");
                                  Txt (lit ", "); Tag (lit "slot")];
               Plain (Txt (lit "."))]
              [(lit "name", VStr (lit "Sam")); (lit "title", VNull);
               (lit "day", VStr (lit "Monday"))]
              eq_refl eq_refl eq_refl) as [H _].
  exact H.
Defined.

(* ================================================================== *)
(** ** Bold pairs (C7) *)
(* ================================================================== *)

Lemma star_free_head (u a b t : jsstring) :
  free_of STAR u = true -> u = a ++ b -> b <> [] ->
  starts_with (lit "**") (b ++ t) = false.
Proof.
  intros H E Hb. destruct b as [|x b]; [contradiction|].
  pose proof (free_of_suffix_head STAR x u a b H E) as F. unfold STAR in F.
  eval_lits. cbn [app starts_with]. now rewrite F.
Qed.

Lemma exec_at_pair (x t : jsstring) :
  free_of STAR x = true -> forallb is_dot x = true ->
  exec_at re_bold (lit "**" ++ x ++ lit "**" ++ t) =
  Some (length (lit "**" ++ x ++ lit "**"), [Some x]).
Proof.
  intros Hs Hd. unfold exec_at.
  replace (group_count re_bold) with 1 by reflexivity.
  unfold re_bold. cbn [rmatch repeat]. rewrite rmatch_RLit_app.
  cbn [rmatch]. unfold star.
  rewrite star_lazy_first with (r := (t, [Some x])); [| exact Hd | |].
  - f_equal. f_equal. rewrite !length_app. cbn [length]. lia.
  - intros a b E Hb. rewrite rmatch_RLit.
    now rewrite (star_free_head x a b _ Hs E Hb).
  - rewrite rmatch_RLit_app. cbn [set_capture]. now rewrite firstn_minus.
Qed.

Lemma GetSubstitution_strong (mt x b a : jsstring) :
  GetSubstitution (MatchInfo mt [Some x] b a) (lit "<strong>$1</strong>") =
  lit "<strong>" ++ x ++ lit "</strong>".
Proof. reflexivity. Qed.

Lemma bold_pairs (ps : list bold_pair) (rest : jsstring) :
  forallb wf_pair ps = true ->
  free_of STAR rest = true ->
  forall seen,
    replace_go re_bold (fun m => GetSubstitution m (lit "<strong>$1</strong>"))
      seen 0 (pairs_str ps rest) =
    pairs_bold ps rest.
Proof.
  intros Hps Hrest. induction ps as [|[pre x] ps IH]; intro seen.
  - cbn [pairs_str pairs_bold]. rewrite <- (app_nil_r rest) at 1.
    rewrite replace_go_copy, replace_go_end, app_nil_r; [reflexivity.. |].
    intros a b E Hb. unfold re_bold. apply exec_at_prefix.
    now apply (star_free_head rest a b).
  - cbn [forallb wf_pair] in Hps.
    apply andb_true_iff in Hps as [Hp Hps].
    apply andb_true_iff in Hp as [Hp Hd]. apply andb_true_iff in Hp as [Hpre Hx].
    cbn [pairs_str pairs_bold].
    rewrite replace_go_copy.
    + f_equal.
      rewrite (app_assoc x), (app_assoc (lit "**")).
      rewrite replace_go_match with (caps := [Some x]).
      * rewrite (IH Hps), GetSubstitution_strong, <- !app_assoc. reflexivity.
      * intro H. apply (f_equal (@length _)) in H.
        rewrite !length_app in H. cbn in H. lia.
      * rewrite <- !app_assoc. now apply exec_at_pair.
    + intros a b E Hb. unfold re_bold. apply exec_at_prefix.
      now apply (star_free_head pre a b).
Qed.

(** C7. Every well-formed pair [**x**] becomes [<strong>x</strong>], the
    text around the pairs being kept; [processTemplate] does this on the
    outcome of conditional resolution and before it turns line feeds into
    [<br>].  Both orders are observable: asterisks that a conditional
    leaves behind form a pair, and a pair broken by a line feed is not
    bold. *)
Theorem bold_pairs_converted (ps : list bold_pair) (rest : jsstring) :
  forallb wf_pair ps = true ->
  free_of STAR rest = true ->
  convertBold (pairs_str ps rest) = pairs_bold ps rest /\
  (forall template data,
     processTemplate (VStr template) data =
     (merged <- mergeTags data (Object_keys data) template ;;
      Ok (convertNewlines (convertBold (resolveConditionals data merged))))) /\
  processTemplate (VStr (lit "{{#if k}}**{{/if}}x**")) [(lit "k", VBool true)] =
    Ok (lit "<strong>x</strong>") /\
  processTemplate (VStr (lit "**a" ++ [LF] ++ lit "b**")) [] =
    Ok (lit "**a<br>b**").
Proof.
  intros Hps Hrest. split; [| split; [reflexivity | split; vm_compute; reflexivity]].
  unfold convertBold, replace_str. now apply bold_pairs.
Qed.

Lemma bold_pairs_converted_witness :
  convertBold (lit "Total: **$120** due **Friday**, thanks") =
  lit "Total: <strong>$120</strong> due <strong>Friday</strong>, thanks".
Proof.
  exact (proj1 (bold_pairs_converted
                  [(lit "Total: ", lit "$120"); (lit " due ", lit "Friday")]
                  (lit ", thanks") eq_refl eq_refl)).
Defined.

(* ================================================================== *)
(** ** Templates without tags or blocks (C8) *)
(* ================================================================== *)

Lemma replace_go_no_tag (key : jsstring) (rep : match_info -> jsstring)
    (u seen : jsstring) :
  occurs (tag key) u = false ->
  replace_go (RLit (tag key)) rep seen 0 u = u.
Proof.
  intro H. rewrite <- (app_nil_r u) at 1.
  rewrite replace_go_copy, replace_go_end, app_nil_r; [reflexivity | |].
  - now rewrite exec_at_RLit.
  - intros a b E Hb. rewrite exec_at_RLit, app_nil_r.
    subst u. apply occurs_suffix in H. now rewrite H.
Qed.

Lemma mergeTags_no_tag (data : object) (keys : list jsstring) (template : jsstring) :
  forallb (forallb literal_char) keys = true ->
  forallb (fun key => negb (occurs (tag key) template)) keys = true ->
  mergeTags data keys template = Ok template.
Proof.
  induction keys as [|key keys IH]; [reflexivity|].
  cbn [forallb]. intros Hl Ho.
  apply andb_true_iff in Hl as [Hk Hl]. apply andb_true_iff in Ho as [Ht Ho].
  apply negb_true_iff in Ht.
  cbn [mergeTags]. unfold mergeTag. rewrite (RegExp_literal_tag _ Hk).
  unfold replace_str. rewrite replace_go_no_tag by assumption.
  cbn [bind]. now apply IH.
Qed.

(** Where the keys of the mapping are free of pattern syntax, a template
    that holds none of their tags and no conditional block comes out with
    only its bold pairs and line feeds converted. *)
Lemma idempotent_on_literal_keys (template : jsstring) (data : object) :
  forallb (forallb literal_char) (List.map fst data) = true ->
  forallb (fun key => negb (occurs (tag key) template)) (List.map fst data) = true ->
  ~ holds_block template ->
  processTemplate (VStr template) data =
  Ok (convertNewlines (convertBold template)).
Proof.
  intros Hl Ho Hc.
  assert (Hks : forall P, forallb P (List.map fst data) = true ->
                          forallb P (Object_keys data) = true).
  { intros P H. rewrite forallb_forall in *. intros k Hk.
    apply H. now apply In_Object_keys. }
  unfold processTemplate. rewrite mergeTags_no_tag by auto. cbn [bind].
  now rewrite resolve_no_block.
Qed.

(** C8 at a key with pattern syntax. The key is interpolated into the
    pattern unescaped, so the dot of [a.b] matches any code unit: the
    template holds no tag [{{a.b}}] and no conditional block, has no bold
    pair and no line feed, and yet is not returned unchanged. *)
Theorem unescaped_key_rewrites_template :
  let template := lit "{{axb}}" in
  let data := [(lit "a.b", VStr (lit "X"))] in
  occurs (tag (lit "a.b")) template = false /\
  occurs (lit "{{#if ") template = false /\
  convertNewlines (convertBold template) = template /\
  processTemplate (VStr template) data = Ok (lit "X").
Proof. repeat split. Qed.

(** The same input through [POST /send-quote]: the mail goes out with
    the subject rewritten. *)
Example unescaped_key_reaches_mail :
  let req :=
    Request (VStr (lit "a@b.c")) VUndefined VUndefined
      (Some (Template (VStr (lit "{{axb}}")) (VStr (lit "Quote"))))
      (Some [(lit "a.b", VStr (lit "X"))]) None VUndefined AmountAbsent
      VUndefined VUndefined VUndefined None VUndefined in
  exists mail,
    snd (run (Resend.send_quote resend_environment accepting_world req)) =
      [ResendFetch mail] /\
    mail_subject mail = VStr (lit "X").
Proof. eexists. split; vm_compute; reflexivity. Qed.

(* ================================================================== *)
(** ** Merge data (C9) *)
(* ================================================================== *)


Lemma spread_merged_over (derived : object) (d : option object) :
  merged_over derived d (spread derived d).
Proof.
  split.
  - intros dd k v -> Hk. now rewrite own_spread, Hk.
  - intros k Hk. destruct d as [dd|]; [|reflexivity].
    now rewrite own_spread, (Hk dd eq_refl).
Qed.

(** C9. The merge data of the three templated endpoints holds the derived
    keys [company_name], [owner_name], [company_phone], [company_email]
    (and [payment_link] on the invoice endpoint), each defaulted from the
    company settings, under the caller's [data]: a key of [data] keeps the
    caller's value, every other key has its derived default. *)
Theorem mergeData_caller_precedence (req : request) :
  let cs := companySettings req in
  let derived :=
    [ (lit "company_name", or_else (opt_field cs companyName) (VStr (lit "Pool Authority")));
      (lit "owner_name", or_else (opt_field cs ownerName) (VStr []));
      (lit "company_phone", or_else (opt_field cs phone) (VStr []));
      (lit "company_email", or_else (opt_field cs email) (VStr [])) ] in
  let payment := [ (lit "payment_link", or_else (paymentLink req) (VStr [])) ] in
  merged_over derived (data req) (Resend.weekly_mergeData req) /\
  merged_over derived (data req) (Resend.quote_mergeData req) /\
  merged_over (derived ++ payment) (data req) (Resend.invoice_mergeData req).
Proof.
  cbv zeta. repeat split; try apply spread_merged_over;
    try (intros dd k v Hd Hk; unfold Resend.invoice_mergeData);
    try (intros k Hk; unfold Resend.invoice_mergeData);
    now apply spread_merged_over with (d := data req).
Qed.

(** A caller who sends [company_name] overrides the setting; the other
    derived keys keep their defaults. *)
Lemma mergeData_caller_precedence_witness :
  let req :=
    Request (VStr (lit "a@b.c")) VUndefined VUndefined None
      (Some [(lit "company_name", VStr (lit "Acme")); (lit "visit", VStr (lit "Monday"))])
      (Some (Settings (VStr (lit "Blue Pools")) VUndefined (VStr (lit "555")) VUndefined
                      VUndefined VUndefined VUndefined VUndefined))
      VUndefined AmountAbsent VUndefined VUndefined VUndefined None VUndefined in
  own (Resend.weekly_mergeData req) (lit "company_name") = Some (VStr (lit "Acme")) /\
  own (Resend.invoice_mergeData req) (lit "company_phone") = Some (VStr (lit "555")).
Proof.
  intro req. destruct (mergeData_caller_precedence req) as [[Hw _] [_ [_ Hi]]].
  split.
  - eapply Hw; reflexivity.
  - rewrite Hi; [reflexivity|]. intros dd E. injection E as <-. reflexivity.
Defined.

(* ================================================================== *)
(** ** E-mail endpoints: configuration and validation (C5, C6, C10) *)
(* ================================================================== *)

Lemma not_configured_run (env : environment) :
  Resend.emailConfigured env = false ->
  forall (w : world) (req : request),
    let refused :=
      (Ok (Response 400 (JError (Text (lit "Email not configured. Set RESEND_API_KEY.")))),
       @nil call) in
    run (Resend.send_weekly_update env w req) = refused /\
    run (Resend.send_invoice env w req) = refused /\
    run (Resend.send_quote env w req) = refused /\
    run (Resend.send_email env w req) = refused /\
    run (Resend.test_email env w req) = refused.
Proof.
  intros H w req.
  unfold Resend.send_weekly_update, Resend.send_invoice, Resend.send_quote,
    Resend.send_email, Resend.test_email.
  rewrite H. simpl. repeat split.
Qed.

(** C6. Without [RESEND_API_KEY] in the environment every e-mail endpoint
    answers 400 with the fixed "not configured" error, whatever the request
    body and whatever the provider would do, and calls no provider. *)
Theorem email_not_configured (env : environment) (w : world) (req : request) :
  env_RESEND_API_KEY env = None ->
  let refused :=
    (Ok (Response 400 (JError (Text (lit "Email not configured. Set RESEND_API_KEY.")))),
     @nil call) in
  run (Resend.send_weekly_update env w req) = refused /\
  run (Resend.send_invoice env w req) = refused /\
  run (Resend.send_quote env w req) = refused /\
  run (Resend.send_email env w req) = refused /\
  run (Resend.test_email env w req) = refused.
Proof.
  intro H. apply not_configured_run.
  unfold Resend.emailConfigured, Resend.RESEND_API_KEY. now rewrite H.
Qed.

Lemma email_not_configured_witness :
  env_RESEND_API_KEY no_environment = None /\
  run (Resend.send_invoice no_environment accepting_world empty_request) =
    (Ok (Response 400 (JError (Text (lit "Email not configured. Set RESEND_API_KEY.")))), []).
Proof.
  split; [reflexivity|].
  apply (email_not_configured no_environment accepting_world empty_request).
  reflexivity.
Defined.


(** C5. A request without a recipient is answered 400 by each of the four
    send endpoints and reaches no provider; on the generic endpoint the
    same holds without a subject or without a body. *)
Theorem missing_recipient_rejected (env : environment) (w : world) (req : request) :
  (ToBoolean (to req) = false ->
   rejected_400 (run (Resend.send_weekly_update env w req)) /\
   rejected_400 (run (Resend.send_invoice env w req)) /\
   rejected_400 (run (Resend.send_quote env w req)) /\
   rejected_400 (run (Resend.send_email env w req))) /\
  (ToBoolean (subject req) = false \/ ToBoolean (body req) = false ->
   rejected_400 (run (Resend.send_email env w req))).
Proof.
  unfold rejected_400, Resend.send_weekly_update, Resend.send_invoice,
    Resend.send_quote, Resend.send_email.
  destruct (Resend.emailConfigured env); simpl.
  - split.
    + intros ->. simpl. repeat split; eexists; reflexivity.
    + intros [-> | ->]; rewrite ?orb_true_r; simpl; eexists; reflexivity.
  - split; intros _; repeat split; eexists; reflexivity.
Qed.

Lemma missing_recipient_rejected_witness :
  rejected_400 (run (Resend.send_quote resend_environment accepting_world empty_request)) /\
  rejected_400 (run (Resend.send_email resend_environment accepting_world
                       (Request (VStr (lit "a@b.c")) (VStr (lit "Hi")) VUndefined None None
                                None VUndefined AmountAbsent VUndefined VUndefined
                                VUndefined None VUndefined))).
Proof.
  split.
  - apply (missing_recipient_rejected resend_environment accepting_world empty_request).
    reflexivity.
  - apply missing_recipient_rejected. right. reflexivity.
Defined.

(** C10. On a configured server a test request whose [to] is absent or
    falsy is not refused: exactly one message is handed to the provider,
    addressed to the reply-to address ([GMAIL_USER], or the built-in
    default), and the endpoint reports success as soon as the provider
    accepts it.  The same holds for the Gmail variant, where the message
    goes to [GMAIL_USER]. *)
Theorem test_email_default_recipient (env : environment) (w : world) (req : request) :
  ToBoolean (to req) = false ->
  (Resend.emailConfigured env = true ->
   exists mail,
     snd (run (Resend.test_email env w req)) = [ResendFetch mail] /\
     mail_to mail =
       VStr (env_or (env_GMAIL_USER env) (lit "jack@poolauthoritycny.com")) /\
     ((exists m, fetch w mail = Responded true m) ->
      fst (run (Resend.test_email env w req)) =
        Ok (Response 200 (JSuccess (lit "Test email sent!"))))) /\
  (Gmail.emailTransporter env = true ->
   exists options,
     snd (run (Gmail.test_email env w req)) = [GmailSendMail options] /\
     smtp_to options = VStr (env_or (env_GMAIL_USER env) []) /\
     (sendMail w options = Ok tt ->
      fst (run (Gmail.test_email env w req)) =
        Ok (Response 200 (JSuccess (lit "Test email sent!"))))).
Proof.
  intro Hto. split.
  - intro Hc. unfold Resend.test_email, Resend.sendEmailWithResend.
    change (nonempty (Resend.RESEND_API_KEY env)) with (Resend.emailConfigured env).
    rewrite Hc. unfold or_else. rewrite Hto.
    cbv [run try_catch abind perform negb respond ret throw app fst snd].
    eexists. split; [|split].
    + destruct (fetch w _) as [e|[|] m]; reflexivity.
    + reflexivity.
    + intros [m H]. rewrite H. reflexivity.
  - intro Hc. unfold Gmail.test_email. rewrite Hc. unfold or_else. rewrite Hto.
    cbv [run try_catch abind perform lift negb respond ret throw app fst snd].
    eexists. split; [|split].
    + destruct (sendMail w _) as [[]|e|]; reflexivity.
    + reflexivity.
    + intros H. rewrite H. reflexivity.
Qed.

Lemma test_email_default_recipient_witness :
  run (Resend.test_email resend_environment accepting_world empty_request) =
    (Ok (Response 200 (JSuccess (lit "Test email sent!"))),
     [ResendFetch
        (ResendMail (lit "Bearer re_1") (lit "Pool Authority <onboarding@resend.dev>")
           (VStr (lit "jack@poolauthoritycny.com")) (lit "jack@poolauthoritycny.com")
           (VStr (lit "Pool Authority - Email Test")) Resend.test_html)]) /\
  fst (run (Gmail.test_email gmail_environment accepting_world empty_request)) =
    Ok (Response 200 (JSuccess (lit "Test email sent!"))).
Proof.
  destruct (test_email_default_recipient resend_environment accepting_world
              empty_request eq_refl) as [Hr _].
  destruct (test_email_default_recipient gmail_environment accepting_world
              empty_request eq_refl) as [_ Hg].
  split.
  - reflexivity.
  - destruct (Hg eq_refl) as [o [_ [_ H]]]. apply H. reflexivity.
Defined.

(** A provider that refuses the message: the failure is caught and
    surfaces as a 500 with the provider's (or the default) message. *)
Example provider_refusal_is_500 :
  exists mail,
    run (Resend.test_email resend_environment refusing_world empty_request) =
    (Ok (Response 500 (JError (Text (lit "Failed to send email")))),
     [ResendFetch mail]).
Proof. eexists. reflexivity. Qed.

(* ================================================================== *)
(** ** Checkout sessions (C3, C4) *)
(* ================================================================== *)


Lemma invalid_number (x : number) :
  invalid_amount (AmountNumber x) = Ok (negb (SFltb (S754_zero false) x)).
Proof. destruct x as [[|]|[|]| |[|] m e]; reflexivity. Qed.

(** The guard, amount by amount: it holds, it fails and the amount reads
    as a number above zero or as NaN, or the amount cannot be converted. *)
Lemma invalid_amount_cases (a : amount_value) :
  match invalid_amount a with
  | Ok true =>
      ~ reaches_provider a /\
      (amount_truthy a = false \/
       exists n, amount_ToNumber a = Ok n /\ Number_le n (S754_zero false) = true)
  | Ok false =>
      reaches_provider a /\
      exists n, amount_ToNumber a = Ok n /\ Number_le n (S754_zero false) = false
  | Throw e => e = TypeError /\ unconvertible a = true /\ ~ reaches_provider a
  | Unread => False
  end.
Proof.
  destruct a as [| |[|]|x|s|items|properties].
  - split; [intros [] | now left].
  - split; [intros [] | now left].
  - split; [reflexivity | eexists; split; reflexivity].
  - split; [discriminate | now left].
  - rewrite invalid_number. cbn [reaches_provider].
    destruct (SFltb (S754_zero false) x) eqn:E; cbn [negb].
    + split; [reflexivity|]. exists x. split; [reflexivity|].
      destruct x as [[|]|[|]| |[|] m e]; try discriminate; reflexivity.
    + split; [congruence|].
      destruct (amount_truthy (AmountNumber x)) eqn:T; [right | now left].
      exists x. split; [reflexivity|].
      destruct x as [[|]|[|]| |[|] m e]; try discriminate; reflexivity.
  - unfold invalid_amount. destruct s as [|c s].
    + split; [intros [H _]; now apply H | now left].
    + cbn [amount_truthy negb amount_ToNumber bind reaches_provider].
      destruct (Number_le (StringToNumber (c :: s)) (S754_zero false)) eqn:E.
      * split; [intros [_ H]; discriminate|]. right. eexists. split; [reflexivity|exact E].
      * split; [split; [discriminate | reflexivity]|]. eexists. split; [reflexivity|exact E].
  - unfold invalid_amount, amount_ToNumber.
    cbn [amount_truthy negb unconvertible reaches_provider].
    destruct (existsb unconvertible items) eqn:U; cbn [bind].
    + split; [reflexivity|]. split; [reflexivity|]. intros [H _]. discriminate.
    + destruct (Number_le (element_number (AmountArray items)) (S754_zero false)) eqn:E.
      * split; [intros [_ H]; discriminate|]. right. eexists. split; [reflexivity|exact E].
      * split; [split; reflexivity|]. eexists. split; [reflexivity|exact E].
  - unfold invalid_amount, amount_ToNumber.
    cbn [amount_truthy negb unconvertible reaches_provider].
    destruct (has_own_toString properties) eqn:U; cbn [bind].
    + split; [reflexivity|]. split; [reflexivity|]. discriminate.
    + replace (Number_le S754_nan (S754_zero false)) with false by reflexivity.
      split; [reflexivity|]. eexists. split; reflexivity.
Qed.

Lemma checkout_run (w : world) (req : request) :
  match invalid_amount (amount req) with
  | Ok true =>
      run (Resend.create_checkout_session w req) =
        (Ok (Response 400 (JError (Text (lit "Invalid amount")))), [])
  | Ok false =>
      exists n cfg,
        amount_ToNumber (amount req) = Ok n /\
        snd (run (Resend.create_checkout_session w req)) = [StripeCreate cfg] /\
        unit_amount cfg = Math_round (Number_multiply n (number_of_Z 100)) /\
        (forall session, stripe_create w cfg = Ok session ->
           fst (run (Resend.create_checkout_session w req)) =
             Ok (Response 200 (JSession (fst session) (snd session)))) /\
        (forall e, stripe_create w cfg = Throw e ->
           fst (run (Resend.create_checkout_session w req)) =
             Ok (Response 500 (JError (message_of e))))
  | Throw e =>
      run (Resend.create_checkout_session w req) =
        (Ok (Response 500 (JError (message_of e))), [])
  | Unread => False
  end.
Proof.
  pose proof (invalid_amount_cases (amount req)) as C.
  unfold Resend.create_checkout_session.
  destruct (invalid_amount (amount req)) as [[|]|e|]; try reflexivity; [|exact C].
  destruct C as [_ [n [T _]]]. rewrite T.
  cbv [run try_catch abind perform lift respond ret app fst snd].
  exists n. eexists. split; [reflexivity|]. split; [|split; [|split]].
  - destruct (stripe_create w _) as [s|e|]; reflexivity.
  - reflexivity.
  - intros session H. rewrite H. reflexivity.
  - intros e H. rewrite H. reflexivity.
Qed.


(** The number 4999 is 4999 * 2^40 * 2^-40. *)
Lemma number_of_Z_4999 :
  number_of_Z 4999 = S754_finite false (4999 * 2 ^ 40) (-40).
Proof. reflexivity. Qed.

(** The constant [amount_49_99] is the binary64 number nearest to 4999/100:
    it is within half a unit in the last place (2^-48). *)
Lemma amount_49_99_nearest :
  (Z.abs (100 * 0x18feb851eb851f - 4999 * 2 ^ 47) * 2 <= 100)%Z.
Proof. vm_compute. discriminate. Qed.









(** So do amounts that are no numbers at all: the string ["abc"] and a
    plain object pass the guard and the provider receives NaN; the string
    ["5"] and the array [[5]] are charged as 5; an object with a
    [toString] entry cannot be compared and the request ends in a 500
    without a call. *)
Example amounts_that_are_no_numbers :
  let sent (a : amount_value) :=
    List.map (fun c => match c with
                       | StripeCreate cfg => Some (unit_amount cfg)
                       | _ => None
                       end)
             (snd (run (Resend.create_checkout_session accepting_world (with_amount a)))) in
  sent (AmountString (lit "abc")) = [Some S754_nan] /\
  sent (AmountObject []) = [Some S754_nan] /\
  sent (AmountString (lit "5")) = [Some (number_of_Z 500)] /\
  sent (AmountArray [AmountNumber (number_of_Z 5)]) = [Some (number_of_Z 500)] /\
  run (Resend.create_checkout_session accepting_world
         (with_amount (AmountObject [(lit "toString", AmountNull)]))) =
    (Ok (Response 500 (JError EngineText)), []).
Proof. cbv zeta. repeat split; vm_compute; reflexivity. Qed.



(* ================================================================== *)
(** * Further properties of the code *)
(* ================================================================== *)

(* ================================================================== *)
(** ** Line breaks *)
(* ================================================================== *)

Lemma exec_at_newline (c : code_unit) (s : jsstring) :
  exec_at re_newline (c :: s) = if N.eqb c LF then Some (1, []) else None.
Proof.
  unfold exec_at, re_newline. cbn [rmatch group_count repeat].
  destruct (N.eqb c LF); [|reflexivity].
  cbn [length]. f_equal. f_equal. lia.
Qed.

Lemma newline_scan (s seen : jsstring) :
  replace_go re_newline (fun _ => lit "<br>") seen 0 s = flat_map br_of s.
Proof.
  revert seen; induction s as [|c s IH]; intro seen; [reflexivity|].
  rewrite replace_go_cons, exec_at_newline. cbn [flat_map]. unfold br_of at 1.
  destruct (N.eqb c LF); cbn [app]; now rewrite IH.
Qed.

(** [s.replace(/\n/g, '<br>')] works one code unit at a time. *)
Lemma convertNewlines_chars (s : jsstring) :
  convertNewlines s = flat_map br_of s.
Proof.
  unfold convertNewlines. rewrite replace_str_plain by reflexivity.
  apply newline_scan.
Qed.

Lemma br_of_free (c : code_unit) : free_of LF (br_of c) = true.
Proof.
  unfold br_of. destruct (N.eqb c LF) eqn:E; [reflexivity|].
  apply free_of_cons. split; [now apply N.eqb_neq | reflexivity].
Qed.

Lemma convertNewlines_free (s : jsstring) : free_of LF (convertNewlines s) = true.
Proof.
  rewrite convertNewlines_chars. induction s as [|c s IH]; [reflexivity|].
  cbn [flat_map]. apply free_of_app. split; [apply br_of_free | exact IH].
Qed.

Lemma convertNewlines_id (s : jsstring) :
  free_of LF s = true -> convertNewlines s = s.
Proof.
  rewrite convertNewlines_chars. induction s as [|c s IH]; [reflexivity|].
  intro H. apply free_of_cons in H as [Hc Hs]. cbn [flat_map]. unfold br_of at 1.
  apply N.eqb_neq in Hc. rewrite Hc. cbn [app]. now rewrite IH.
Qed.

(** X1. What [processTemplate] returns never holds a line feed, whatever
    the template and the data; nor does the content that [/send-email]
    wraps. *)
Theorem rendered_text_has_no_line_feed (template : jsstring) (data : object)
    (body : value) (rendered : jsstring) (log : list call) :
  (processTemplate (VStr template) data = Ok rendered ->
   free_of LF rendered = true) /\
  (Resend.body_replace body log = (Ok rendered, log) ->
   free_of LF rendered = true).
Proof.
  split.
  - unfold processTemplate.
    destruct (mergeTags data (Object_keys data) template) as [m|e|];
      cbn [bind]; intro H; [|discriminate..].
    injection H as <-. apply convertNewlines_free.
  - destruct body as [| |b|s]; cbn [Resend.body_replace]; unfold throw, ret;
      intro H; try discriminate.
    injection H as <-. apply (convertNewlines_free s).
Qed.

Lemma rendered_text_has_no_line_feed_witness :
  free_of LF (lit "Dear Sam,<br><br>see you <strong>Monday</strong>.<br>") = true.
Proof.
  apply (proj1 (rendered_text_has_no_line_feed
                  (lit "Dear {{name}}," ++ [LF; LF] ++ lit "see you **{{day}}**." ++ [LF])
                  [(lit "name", VStr (lit "Sam")); (lit "day", VStr (lit "Monday"))]
                  VNull _ [])).
  vm_compute. reflexivity.
Defined.

(** X2. Line-break conversion works piece by piece and ends what it
    starts: the conversion of a concatenation is the concatenation of the
    conversions, and converting twice is converting once. *)
Theorem convertNewlines_compositional (a b : jsstring) :
  convertNewlines (a ++ b) = convertNewlines a ++ convertNewlines b /\
  convertNewlines (convertNewlines a) = convertNewlines a.
Proof.
  split.
  - rewrite !convertNewlines_chars. apply flat_map_app.
  - apply convertNewlines_id, convertNewlines_free.
Qed.

(* ================================================================== *)
(** ** Dollar signs in merge values *)
(* ================================================================== *)

Lemma no_group_index (n : nat) : ((1 <=? n)%nat && (n <=? 0)%nat)%bool = false.
Proof. now destruct n. Qed.

(** With no capture group, [$n] is no replacement pattern. *)
Lemma GetSubstitution_safe (m : match_info) (t : jsstring) :
  groups m = [] -> dollar_safe t = true -> GetSubstitution m t = t.
Proof.
  intro Hg. induction t as [|c t IH]; [reflexivity|].
  cbn [dollar_safe]. intro H. apply andb_true_iff in H as [Hc Ht].
  specialize (IH Ht). cbn [GetSubstitution].
  destruct (N.eqb c DOLLAR) eqn:Ec; cbn [negb].
  - apply N.eqb_eq in Ec. subst c.
    destruct t as [|d t']; [reflexivity|].
    cbn [negb orb] in Hc. apply negb_true_iff in Hc.
    apply orb_false_iff in Hc as [Hc H4]. apply orb_false_iff in Hc as [Hc H3].
    apply orb_false_iff in Hc as [H1 H2].
    rewrite H1, H2, H3, H4, Hg. cbn [length].
    rewrite !no_group_index, IH.
    destruct (is_digit d); [|reflexivity].
    destruct t' as [|d2 t'']; [reflexivity|].
    now rewrite <- andb_assoc, no_group_index, andb_false_r.
  - now rewrite IH.
Qed.

Lemma replace_go_ext_nogroup (r : regex) (f g : match_info -> jsstring) :
  (forall s len caps, exec_at r s = Some (len, caps) -> caps = []) ->
  (forall m, groups m = [] -> f m = g m) ->
  forall s seen skip, replace_go r f seen skip s = replace_go r g seen skip s.
Proof.
  intros Hr H. induction s as [|c s IH]; intros seen skip.
  - destruct skip; simpl; [|reflexivity].
    destruct (exec_at r []) as [[len caps]|] eqn:E; [|reflexivity].
    rewrite (Hr _ _ _ E). now rewrite (H (MatchInfo _ [] _ _) eq_refl).
  - destruct skip as [|n].
    + rewrite !replace_go_cons.
      destruct (exec_at r (c :: s)) as [[len caps]|] eqn:E.
      * rewrite (Hr _ _ _ E), (H (MatchInfo _ [] _ _) eq_refl).
        destruct len; now rewrite IH.
      * now rewrite IH.
    + simpl. apply IH.
Qed.

Lemma replace_str_safe (w t s : jsstring) :
  dollar_safe t = true ->
  replace_str (RLit w) t s = replace_go (RLit w) (fun _ => t) [] 0 s.
Proof.
  intro H. unfold replace_str. apply replace_go_ext_nogroup.
  - intros u len caps. rewrite exec_at_RLit.
    destruct (starts_with w u); [|discriminate]. now intros [= _ <-].
  - intros m Hm. now apply GetSubstitution_safe.
Qed.

Lemma wf_merge_all_harmless (data : object) (keys : list jsstring) (i : item) :
  forallb (harmless data) keys = true ->
  wf_item i = true -> wf_item (merge_all data keys i) = true.
Proof.
  revert i; induction keys as [|key keys IH]; intros i Hi Hwf; [assumption|].
  simpl in Hi. apply andb_true_iff in Hi as [Hv Hi].
  apply andb_true_iff in Hv as [Hb _].
  unfold merge_all. cbn [fold_left]. apply IH; [assumption|].
  now apply wf_merge_item.
Qed.

Lemma mergeTags_segments_harmless (data : object) (keys : list jsstring) :
  forallb word keys = true ->
  forallb (harmless data) keys = true ->
  forall segs,
    forallb wf_segment segs = true ->
    mergeTags data keys (template_str segs) =
    Ok (template_str (List.map (map_segment (merge_all data keys)) segs)).
Proof.
  induction keys as [|key keys IH]; intros Hw Hi segs Hwf.
  - cbn [mergeTags]. f_equal. f_equal. rewrite <- (map_id segs) at 1.
    apply map_ext. intros [i|k body]; cbn [map_segment]; [reflexivity|].
    now rewrite map_id.
  - simpl in Hw, Hi.
    apply andb_true_iff in Hw as [Hkey Hw]. apply andb_true_iff in Hi as [Hv Hi].
    apply andb_true_iff in Hv as [Hb Hd].
    cbn [mergeTags]. rewrite mergeTag_word by assumption. cbn [bind].
    rewrite replace_str_safe by assumption.
    rewrite merge_segments by assumption.
    rewrite IH; [| assumption | assumption |].
    + rewrite map_map. f_equal. f_equal. apply map_ext. intro s.
      now rewrite map_segment_compose.
    + apply wf_map_segments; [|assumption].
      intros i Hwi. now apply wf_merge_item.
Qed.

Lemma forallb_Object_keys (P : jsstring -> bool) (data : object) :
  forallb P (List.map fst data) = true -> forallb P (Object_keys data) = true.
Proof.
  intro H. rewrite forallb_forall in *. intros k Hk.
  apply H. now apply In_Object_keys.
Qed.

(** X3. A value with dollar signs, as a price has, is inserted as it
    stands: on a well-formed template and a mapping with word keys, every
    tag is read as [render_segment] says as long as no value inserts an
    opening brace or a dollar sign followed by [$], [&], a backquote or a
    quote.  The tag pattern has no group, so [$1] in a value is plain
    text. *)
Theorem prices_are_inserted_verbatim (segs : list segment) (data : object) :
  forallb wf_segment segs = true ->
  forallb word (List.map fst data) = true ->
  forallb (harmless data) (List.map fst data) = true ->
  processTemplate (VStr (template_str segs)) data =
  Ok (convertNewlines (convertBold (concat (List.map (render_segment data) segs)))).
Proof.
  intros Hwf Hw Hi. unfold processTemplate.
  rewrite mergeTags_segments_harmless by auto using forallb_Object_keys.
  cbn [bind]. unfold resolveConditionals, replace_fn.
  change (fun m : match_info => _) with (keep_if data).
  rewrite resolve_segments.
  - do 3 f_equal. rewrite map_map. f_equal. apply map_ext. intro s.
    apply render_resolved.
  - apply wf_map_segments; [|assumption].
    intros i Hwi. apply wf_merge_all_harmless; [|assumption].
    now apply forallb_Object_keys.
Qed.

Lemma prices_are_inserted_verbatim_witness :
  processTemplate (VStr (lit "Total due: {{total}} ({{count}} visits at {{rate}})"))
    [(lit "total", VStr (lit "$120.00")); (lit "count", VStr (lit "3"));
     (lit "rate", VStr (lit "$40 each"))] =
  Ok (lit "Total due: $120.00 (3 visits at $40 each)").
Proof.
  exact (prices_are_inserted_verbatim
           [Plain (Txt (lit "Total due: ")); Plain (Tag (lit "total"));
            Plain (Txt (lit " (")); Plain (Tag (lit "count"));
            Plain (Txt (lit " visits at ")); Plain (Tag (lit "rate"));
            Plain (Txt (lit ")"))]
           [(lit "total", VStr (lit "$120.00")); (lit "count", VStr (lit "3"));
            (lit "rate", VStr (lit "$40 each"))]
           eq_refl eq_refl eq_refl).
Defined.

(** A value with [$&] puts the tag back: the replacement pattern stands
    for the matched text. *)
Lemma GetSubstitution_app (m : match_info) (pre t : jsstring) :
  free_of DOLLAR pre = true ->
  GetSubstitution m (pre ++ t) = pre ++ GetSubstitution m t.
Proof.
  induction pre as [|c pre IH]; [reflexivity|].
  intro H. apply free_of_cons in H as [Hc H]. apply N.eqb_neq in Hc.
  cbn [app GetSubstitution]. rewrite Hc. cbn [negb]. now rewrite IH.
Qed.

Lemma GetSubstitution_amp (m : match_info) (t : jsstring) :
  GetSubstitution m (lit "$&" ++ t) = matched m ++ GetSubstitution m t.
Proof. reflexivity. Qed.

Lemma Object_keys_single (k : jsstring) (v : value) : Object_keys [(k, v)] = [k].
Proof.
  unfold Object_keys. cbn [index_keys name_keys].
  now destruct (array_index k).
Qed.

(** X4. A value that holds the replacement pattern [$&] brings the tag
    back: with [data = { key: pre + "$&" + post }] the tag [{{key}}]
    renders as [pre {{key}} post] instead of [pre $& post]. *)
Theorem dollar_ampersand_restores_tag (key pre post : jsstring) :
  word key = true ->
  free_of LBRACE pre = true -> free_of DOLLAR pre = true ->
  free_of LBRACE post = true -> free_of DOLLAR post = true ->
  processTemplate (VStr (tag key)) [(key, VStr (pre ++ lit "$&" ++ post))] =
  Ok (convertNewlines (convertBold (pre ++ tag key ++ post))).
Proof.
  intros Hk Hb1 Hd1 Hb2 Hd2. unfold processTemplate.
  rewrite Object_keys_single. cbn [mergeTags].
  rewrite mergeTag_word by assumption. cbn [bind].
  unfold inserted, Get. cbn [own]. rewrite str_eqb_refl.
  unfold replace_str.
  rewrite <- (app_nil_r (tag key)) at 2.
  rewrite replace_go_match with (caps := []);
    [| discriminate | now rewrite exec_at_RLit, starts_with_app].
  rewrite replace_go_end by now rewrite exec_at_RLit.
  assert (V : ToString (or_else (VStr (pre ++ lit "$&" ++ post)) (VStr [])) =
              pre ++ lit "$&" ++ post).
  { unfold or_else. destruct pre; reflexivity. }
  rewrite V, app_nil_r, GetSubstitution_app by assumption.
  rewrite GetSubstitution_amp, GetSubstitution_plain by assumption. cbn [matched].
  do 3 f_equal.
  assert (T : template_str [Plain (Txt pre); Plain (Tag key); Plain (Txt post)] =
              pre ++ tag key ++ post).
  { unfold template_str. cbn [List.map concat segment_str item_str].
    now rewrite app_nil_r. }
  rewrite <- T at 1.
  unfold resolveConditionals, replace_fn.
  change (fun m : match_info => _) with (keep_if [(key, VStr (pre ++ lit "$&" ++ post))]).
  rewrite resolve_segments.
  - exact T.
  - cbn [forallb wf_segment wf_item]. now rewrite Hb1, Hk, Hb2.
Qed.

Lemma dollar_ampersand_restores_tag_witness :
  processTemplate (VStr (lit "{{note}}")) [(lit "note", VStr (lit "Fish $& chips"))] =
  Ok (lit "Fish {{note}} chips").
Proof.
  exact (dollar_ampersand_restores_tag (lit "note") (lit "Fish ") (lit " chips")
           eq_refl eq_refl eq_refl eq_refl eq_refl).
Defined.

(* ================================================================== *)
(** ** Bold pairs and lines *)
(* ================================================================== *)

Lemma star_lazy_none (p : code_unit -> bool)
    (k : jsstring -> option (jsstring * captures)) (s : jsstring) :
  (forall a b, s = a ++ b -> k b = None) -> star_lazy p k s = None.
Proof.
  induction s as [|c s IH]; intro H; cbn [star_lazy].
  - now rewrite (H [] [] eq_refl).
  - rewrite (H [] (c :: s) eq_refl). destruct (p c); [|reflexivity].
    apply IH. intros a b E. apply (H (c :: a) b). now rewrite E.
Qed.

(** A lazy run that cannot pass [c] fails when the rest of the pattern
    fits nowhere before it. *)
Lemma star_lazy_blocked (p : code_unit -> bool)
    (k : jsstring -> option (jsstring * captures)) (u : jsstring)
    (c : code_unit) (t : jsstring) :
  p c = false ->
  (forall a b, u = a ++ b -> k (b ++ c :: t) = None) ->
  star_lazy p k (u ++ c :: t) = None.
Proof.
  intros Hc. induction u as [|y u IH]; intro H.
  - pose proof (H [] [] eq_refl) as H0. cbn [app] in H0.
    cbn [app star_lazy]. now rewrite H0, Hc.
  - cbn [app star_lazy]. pose proof (H [] (y :: u) eq_refl) as H0.
    cbn [app] in H0. rewrite H0. destruct (p y); [|reflexivity].
    apply IH. intros a b E. apply (H (y :: a) b). now rewrite E.
Qed.

Lemma exec_at_bold_open (s : jsstring) :
  exec_at re_bold (lit "**" ++ s) =
  match star_lazy is_dot
          (fun s' =>
             rmatch (RLit (lit "**")) (fun s'' caps => Some (s'', caps)) s'
               (set_capture 1 (firstn (length s - length s') s) [None]))
          s with
  | Some (s', caps) => Some (length (lit "**" ++ s) - length s', caps)
  | None => None
  end.
Proof.
  unfold exec_at. replace (group_count re_bold) with 1 by reflexivity.
  unfold re_bold. cbn [rmatch repeat]. now rewrite rmatch_RLit_app.
Qed.

Lemma star_head (s t : jsstring) :
  free_of STAR s = true -> s <> [] -> starts_with (lit "**") (s ++ t) = false.
Proof.
  intros H Hs. destruct s as [|c s]; [contradiction|].
  apply free_of_cons in H as [H _]. apply N.eqb_neq in H. unfold STAR in H.
  eval_lits. cbn [app starts_with]. now rewrite H.
Qed.

Lemma no_bold_in_text (u t a b : jsstring) :
  free_of STAR u = true -> u = a ++ b -> b <> [] ->
  exec_at re_bold (b ++ t) = None.
Proof.
  intros H E Hb. unfold re_bold. apply exec_at_prefix.
  now apply (star_free_head u a b t).
Qed.

(** Where [**] opens no pair, neither asterisk of it does. *)
Lemma no_bold_at_stars (s a b : jsstring) :
  exec_at re_bold (lit "**" ++ s) = None ->
  starts_with [STAR] s = false ->
  lit "**" = a ++ b -> b <> [] ->
  exec_at re_bold (b ++ s) = None.
Proof.
  intros H Hs E Hb.
  destruct a as [|a1 [|a2 a]].
  - simpl in E. now subst b.
  - injection E as _ E. subst b. unfold re_bold. apply exec_at_prefix.
    revert Hs. unfold STAR. eval_lits. cbn [app starts_with].
    destruct s as [|c s]; [reflexivity|].
    intro Hs. rewrite andb_true_r in Hs. rewrite Hs. cbn [andb]. apply andb_false_r.
  - injection E as _ _ E. destruct a; destruct b; try discriminate. contradiction.
Qed.

Lemma not_star_head (s t : jsstring) :
  free_of STAR s = true -> starts_with [STAR] t = false ->
  starts_with [STAR] (s ++ t) = false.
Proof.
  intros H Ht. destruct s as [|c s]; [assumption|].
  apply free_of_cons in H as [H _]. apply N.eqb_neq in H.
  cbn [app starts_with]. now rewrite H.
Qed.

Lemma closing_fails (caps : captures) (s : jsstring) :
  starts_with (lit "**") s = false ->
  rmatch (RLit (lit "**")) (fun s'' caps' => Some (s'', caps')) s caps = None.
Proof. intro H. now rewrite rmatch_RLit, H. Qed.

(** X5. Bold does not cross a line: a pair [**x**] whose [x] holds a line
    terminator is left as it is (its line feed then becomes [<br>]), the
    text around it and [x] being free of asterisks. *)
Theorem bold_does_not_cross_lines (pre u v rest : jsstring) (c : code_unit) :
  free_of STAR pre = true -> free_of STAR u = true -> free_of STAR v = true ->
  free_of STAR rest = true -> is_dot c = false ->
  convertBold (pre ++ lit "**" ++ (u ++ c :: v) ++ lit "**" ++ rest) =
  pre ++ lit "**" ++ (u ++ c :: v) ++ lit "**" ++ rest.
Proof.
  intros Hpre Hu Hv Hrest Hc.
  assert (Hcs : N.eqb c STAR = false).
  { apply N.eqb_neq. intros ->. discriminate. }
  assert (Hx : free_of STAR (u ++ c :: v) = true).
  { apply free_of_app. split; [assumption|]. apply free_of_cons.
    split; [now apply N.eqb_neq | assumption]. }
  assert (Hxh : forall t, starts_with [STAR] ((u ++ c :: v) ++ t) = false).
  { intro t. rewrite <- app_assoc. apply not_star_head; [assumption|].
    cbn [app starts_with]. now rewrite Hcs. }
  unfold convertBold, replace_str.
  rewrite replace_go_copy by (intros a b; apply no_bold_in_text; assumption).
  f_equal.
  rewrite replace_go_copy.
  2:{ intros a b. apply no_bold_at_stars; [|apply Hxh].
      replace ((u ++ c :: v) ++ lit "**" ++ rest)
        with (u ++ c :: (v ++ lit "**" ++ rest))
        by now rewrite <- app_assoc.
      rewrite exec_at_bold_open.
      rewrite star_lazy_blocked; [reflexivity | assumption |].
      intros a' b' E. apply closing_fails.
      destruct b' as [|y b'].
      - eval_lits. cbn [app starts_with]. unfold STAR in Hcs. now rewrite Hcs.
      - rewrite app_comm_cons. apply star_head; [|discriminate].
        subst u. now apply free_of_app in Hu as [_ Hu]. }
  f_equal.
  rewrite replace_go_copy by (intros a b; apply no_bold_in_text; assumption).
  f_equal.
  rewrite <- (app_nil_r rest) at 1 2.
  rewrite replace_go_copy.
  2:{ intros a b. rewrite app_nil_r. apply no_bold_at_stars.
      - rewrite exec_at_bold_open. rewrite star_lazy_none; [reflexivity|].
        intros a' b' E. apply closing_fails.
        destruct b' as [|y b']; [reflexivity|].
        rewrite <- (app_nil_r (y :: b')). apply star_head; [|discriminate].
        subst rest. now apply free_of_app in Hrest as [_ Hrest].
      - rewrite <- (app_nil_r rest). now apply not_star_head. }
  f_equal.
  rewrite replace_go_copy by (intros a b; apply no_bold_in_text; assumption).
  now rewrite replace_go_end, !app_nil_r.
Qed.

Lemma bold_does_not_cross_lines_witness :
  convertBold (lit "Note: **first line" ++ [LF] ++ lit "second line** end") =
  lit "Note: **first line" ++ [LF] ++ lit "second line** end".
Proof.
  exact (bold_does_not_cross_lines (lit "Note: ") (lit "first line")
           (lit "second line") (lit " end") LF
           eq_refl eq_refl eq_refl eq_refl eq_refl).
Defined.

(* ================================================================== *)
(** ** The amount handed to the payment provider *)
(* ================================================================== *)

Lemma shr_1_nonneg (mrs : shr_record) :
  (0 <= shr_m mrs)%Z -> (0 <= shr_m (shr_1 mrs))%Z.
Proof.
  destruct mrs as [[|[p|p|]|p] r s]; cbn [shr_1 shr_m]; intro H; lia.
Qed.

Lemma iter_pos_nonneg (n : positive) (mrs : shr_record) :
  (0 <= shr_m mrs)%Z -> (0 <= shr_m (iter_pos shr_1 n mrs))%Z.
Proof.
  revert mrs. induction n as [n IH|n IH|]; intros mrs H; cbn [iter_pos].
  - apply IH, IH, shr_1_nonneg, H.
  - apply IH, IH, H.
  - apply shr_1_nonneg, H.
Qed.

Lemma shr_fexp_nonneg (m e : Z) (l : location) :
  (0 <= m)%Z -> (0 <= shr_m (fst (shr_fexp prec emax m e l)))%Z.
Proof.
  intro H. unfold shr_fexp, shr.
  assert (H0 : (0 <= shr_m (shr_record_of_loc m l))%Z)
    by (destruct l as [|[| |]]; exact H).
  destruct (fexp prec emax (Zdigits2 m + e) - e)%Z; cbn [fst]; try exact H0.
  now apply iter_pos_nonneg.
Qed.

Lemma round_nearest_even_nonneg (m : Z) (l : location) :
  (0 <= m)%Z -> (0 <= round_nearest_even m l)%Z.
Proof.
  intro H. destruct l as [|[| |]]; cbn [round_nearest_even]; try lia.
  destruct (Z.even m); lia.
Qed.

(** Rounding a non-negative mantissa gives a number of the sign asked
    for, never NaN. *)
Lemma binary_round_aux_sign (s : bool) (m e : Z) (l : location) :
  (0 <= m)%Z -> has_sign s (binary_round_aux prec emax s m e l) = true.
Proof.
  intro H. unfold binary_round_aux.
  pose proof (shr_fexp_nonneg m e l H) as H1.
  destruct (shr_fexp prec emax m e l) as [mrs' e']. cbn [fst] in H1.
  pose proof (shr_fexp_nonneg _ e' loc_Exact
                (round_nearest_even_nonneg _ (loc_of_shr_record mrs') H1)) as H2.
  destruct (shr_fexp prec emax _ e' loc_Exact) as [mrs'' e'']. cbn [fst] in H2.
  destruct (shr_m mrs'') as [|p|p]; [| |lia].
  - cbn [has_sign]. apply eqb_reflx.
  - destruct (e'' <=? emax - prec)%Z; cbn [has_sign]; apply eqb_reflx.
Qed.

Lemma number_of_Z_sign (n : Z) :
  (0 <= n)%Z -> has_sign false (number_of_Z n) = true.
Proof.
  intro H. destruct n as [|p|p]; [reflexivity| |lia].
  unfold number_of_Z, binary_normalize, binary_round.
  destruct (shl_align p 0 _) as [mz ez].
  apply binary_round_aux_sign. lia.
Qed.

Lemma Math_round_sign (x : number) :
  has_sign false x = true -> has_sign false (Math_round x) = true.
Proof.
  destruct x as [s|s| |s m [|e|p]]; try (intro H; exact H).
  cbn [has_sign]. destruct s; [discriminate|]. intros _.
  cbn [Math_round]. cbv zeta.
  set (d := Z.pow_pos 2 p).
  assert (Hd : (0 < d)%Z).
  { unfold d. rewrite Z.pow_pos_fold. apply Z.pow_pos_nonneg; lia. }
  assert (Hn : (0 <= (2 * Z.pos m + d) / (2 * d))%Z)
    by (apply Z.div_pos; lia).
  destruct (Z.eqb _ 0); [reflexivity|].
  now apply number_of_Z_sign.
Qed.

Lemma times_100_sign (x : number) :
  SFltb (S754_zero false) x = true ->
  has_sign false (Number_multiply x (number_of_Z 100)) = true.
Proof.
  destruct x as [s|[|]| |[|] m e]; try discriminate; intros _.
  - reflexivity.
  - replace (number_of_Z 100) with (S754_finite false (100 * 2 ^ 46) (-46))
      by reflexivity.
    unfold Number_multiply, SFmul. cbn [xorb].
    apply binary_round_aux_sign. lia.
Qed.

Lemma has_sign_le (x : number) :
  has_sign false x = true -> Number_le (S754_zero false) x = true.
Proof. destruct x as [[|]|[|]| |[|] m e]; try discriminate; reflexivity. Qed.

Lemma shr_fexp_exponent (m e : Z) (l : location) :
  (e <= snd (shr_fexp prec emax m e l))%Z.
Proof.
  unfold shr_fexp, shr.
  destruct (fexp prec emax (Zdigits2 m + e) - e)%Z; cbn [snd]; lia.
Qed.

(** Rounding at an exponent that is not negative gives no fraction. *)
Lemma binary_round_aux_integer (s : bool) (m e : Z) (l : location) :
  (0 <= m)%Z -> (0 <= e)%Z ->
  is_integer (binary_round_aux prec emax s m e l) = true.
Proof.
  intros Hm He. unfold binary_round_aux.
  pose proof (shr_fexp_nonneg m e l Hm) as M1.
  pose proof (shr_fexp_exponent m e l) as E1.
  destruct (shr_fexp prec emax m e l) as [mrs' e']. cbn [fst snd] in M1, E1.
  pose proof (shr_fexp_nonneg _ e' loc_Exact
                (round_nearest_even_nonneg _ (loc_of_shr_record mrs') M1)) as M2.
  pose proof (shr_fexp_exponent
                (round_nearest_even (shr_m mrs') (loc_of_shr_record mrs'))
                e' loc_Exact) as E2.
  destruct (shr_fexp prec emax _ e' loc_Exact) as [mrs'' e''].
  cbn [fst snd] in M2, E2.
  destruct (shr_m mrs'') as [|q|q]; [reflexivity| |lia].
  destruct (e'' <=? emax - prec)%Z; [|reflexivity].
  destruct e'' as [|r|r]; [reflexivity | reflexivity | lia].
Qed.

Lemma iter_xO_mul (p d : positive) :
  Zpos (Pos.iter xO p d) = (Zpos p * Z.pow_pos 2 d)%Z.
Proof.
  induction d as [|d IH] using Pos.peano_ind.
  - cbn [Pos.iter]. rewrite Z.pow_pos_fold. lia.
  - rewrite Pos.iter_succ, Pos2Z.inj_xO, IH, !Z.pow_pos_fold, Pos2Z.inj_succ.
    rewrite Z.pow_succ_r by lia. lia.
Qed.

Lemma iter_xO_digits (p d : positive) :
  digits2_pos (Pos.iter xO p d) = (digits2_pos p + d)%positive.
Proof.
  induction d as [|d IH] using Pos.peano_ind.
  - cbn [Pos.iter digits2_pos]. lia.
  - rewrite Pos.iter_succ. cbn [digits2_pos]. rewrite IH. lia.
Qed.

Lemma shr_fexp_still (mz : positive) (e : Z) :
  fexp prec emax (Zpos (digits2_pos mz) + e) = e ->
  shr_fexp prec emax (Zpos mz) e loc_Exact =
  ({| shr_m := Zpos mz; shr_r := false; shr_s := false |}, e).
Proof.
  intro H. unfold shr_fexp. cbn [Zdigits2]. rewrite H, Z.sub_diag. reflexivity.
Qed.

(** The Number of an integer has no fraction. *)
Lemma binary_round_integer (s : bool) (p : positive) :
  is_integer (binary_round prec emax s p 0) = true.
Proof.
  unfold binary_round, shl_align.
  assert (F : fexp prec emax (Zpos (digits2_pos p) + 0) = (Zpos (digits2_pos p) - 53)%Z)
    by (unfold fexp, emin, prec, emax; lia).
  rewrite F, Z.sub_0_r.
  destruct (Zpos (digits2_pos p) - 53)%Z as [|q|d] eqn:E;
    try (apply binary_round_aux_integer; lia).
  assert (G : fexp prec emax (Zpos (digits2_pos (Pos.iter xO p d)) + Zneg d) = Zneg d).
  { rewrite iter_xO_digits. unfold fexp, emin, prec, emax. lia. }
  unfold binary_round_aux. rewrite (shr_fexp_still _ _ G).
  cbn [shr_m loc_of_shr_record round_nearest_even].
  rewrite (shr_fexp_still _ _ G). cbn [shr_m].
  replace (Zneg d <=? emax - prec)%Z with true by reflexivity.
  cbn [is_integer]. rewrite iter_xO_mul, Z.mod_mul; [reflexivity|].
  rewrite Z.pow_pos_fold. apply Z.pow_nonzero; lia.
Qed.

Lemma number_of_Z_integer (n : Z) : is_integer (number_of_Z n) = true.
Proof.
  destruct n as [|p|p]; [reflexivity | apply binary_round_integer..].
Qed.

Lemma Math_round_integer (x : number) :
  has_sign false x = true -> is_integer (Math_round x) = true.
Proof.
  destruct x as [s|s| |s m [|e|p]]; try reflexivity; try discriminate.
  intros _. cbn [Math_round]. cbv zeta.
  destruct (Z.eqb _ 0); [reflexivity | apply number_of_Z_integer].
Qed.

Lemma above_zero_or_NaN (n : number) :
  Number_le n (S754_zero false) = false ->
  n = S754_nan \/ SFltb (S754_zero false) n = true.
Proof.
  destruct n as [[|]|[|]| |[|] m e]; try discriminate; intros _;
    (now left) || (now right).
Qed.

(** X6. Whatever the request, a session configuration that reaches the
    payment provider carries a [unit_amount] that is never negative.  When
    the amount reads as NaN (a string such as ["abc"], a plain object) it
    is NaN.  Otherwise the amount reads as a number above zero and the
    [unit_amount] has no fraction and a positive sign: it is [+0] (an
    amount below half a cent), a positive integer, or [+Infinity] (an
    amount whose hundredfold overflows). *)
Theorem unit_amount_not_negative (w : world) (req : request) (c : session_config) :
  In (StripeCreate c) (snd (run (Resend.create_checkout_session w req))) ->
  exists n,
    amount_ToNumber (amount req) = Ok n /\
    ((n = S754_nan /\ unit_amount c = S754_nan) \/
     (SFltb (S754_zero false) n = true /\
      has_sign false (unit_amount c) = true /\
      Number_le (S754_zero false) (unit_amount c) = true /\
      is_integer (unit_amount c) = true)).
Proof.
  intro H. pose proof (checkout_run w req) as R.
  pose proof (invalid_amount_cases (amount req)) as C.
  destruct (invalid_amount (amount req)) as [[|]|e|].
  - rewrite R in H. destruct H.
  - destruct R as [n [cfg [T [R1 [R2 _]]]]]. rewrite R1 in H.
    destruct H as [H|[]]. injection H as ->.
    destruct C as [_ [n' [T' L]]]. rewrite T in T'. injection T' as <-.
    exists n. split; [exact T|].
    destruct (above_zero_or_NaN n L) as [-> | P].
    + left. split; [reflexivity|]. rewrite R2. reflexivity.
    + right. split; [exact P|].
      assert (G : has_sign false (unit_amount c) = true)
        by (rewrite R2; apply Math_round_sign; now apply times_100_sign).
      split; [exact G|]. split; [now apply has_sign_le|].
      rewrite R2. apply Math_round_integer. now apply times_100_sign.
  - rewrite R in H. destruct H.
  - destruct R.
Qed.

Lemma unit_amount_not_negative_witness :
  exists c,
    In (StripeCreate c)
       (snd (run (Resend.create_checkout_session accepting_world
                    (with_amount (AmountNumber
                       (S754_finite false 0x10624dd2f1a9fc (-60))))))) /\
    unit_amount c = S754_zero false /\
    exists n,
      amount_ToNumber (AmountNumber (S754_finite false 0x10624dd2f1a9fc (-60))) = Ok n /\
      ((n = S754_nan /\ unit_amount c = S754_nan) \/
       (SFltb (S754_zero false) n = true /\
        has_sign false (unit_amount c) = true /\
        Number_le (S754_zero false) (unit_amount c) = true /\
        is_integer (unit_amount c) = true)).
Proof.
  eexists.
  assert (H : In (StripeCreate _)
                (snd (run (Resend.create_checkout_session accepting_world
                             (with_amount (AmountNumber
                                (S754_finite false 0x10624dd2f1a9fc (-60))))))))
    by (left; reflexivity).
  split; [exact H | split].
  - reflexivity.
  - exact (unit_amount_not_negative _ _ _ H).
Defined.



(* ================================================================== *)
(** ** What the e-mail endpoints leave behind *)
(* ================================================================== *)

Lemma sendEmailWithResend_run (env : environment) (w : world)
    (to subject : value) (htmlContent : jsstring) (fromName : value)
    (log : list call) :
  Resend.emailConfigured env = true ->
  fromName <> VUndefined ->
  let mail :=
    ResendMail (lit "Bearer " ++ Resend.RESEND_API_KEY env)
               (ToString fromName ++ lit " <onboarding@resend.dev>")
               to (Resend.REPLY_TO_EMAIL env) subject htmlContent in
  Resend.sendEmailWithResend env w to subject htmlContent fromName log =
  (match fetch w mail with
   | Rejected e => Throw e
   | Responded true _ => Ok tt
   | Responded false m =>
       Throw (Error (ToString (or_else m (VStr (lit "Failed to send email")))))
   end, log ++ [ResendFetch mail]).
Proof.
  intros Hc Hf. unfold Resend.emailConfigured in Hc.
  unfold Resend.sendEmailWithResend. rewrite Hc.
  replace (match fromName with VUndefined => VStr (lit "Pool Authority") | _ => fromName end)
    with fromName by (destruct fromName; [now destruct Hf | reflexivity..]).
  cbv [negb abind perform throw ret].
  destruct (fetch w _) as [e|[|] m]; reflexivity.
Qed.

(** The handlers never leave the sender's name undefined. *)
Lemma fromName_defined (req : request) : Resend.fromName req <> VUndefined.
Proof.
  unfold Resend.fromName, or_else.
  destruct (opt_field (companySettings req) companyName) as [| |[|]|[|c s]];
    discriminate.
Qed.

Ltac sender_defined := (apply fromName_defined) || discriminate.

Ltac through_handler :=
  cbv [run try_catch abind lift respond ret throw negb orb
       Resend.template_field Resend.body_replace Resend.not_configured];
  repeat match goal with
  | |- context [if ToBoolean ?v then _ else _] =>
      match v with
      | to _ => destruct (ToBoolean v) eqn:?
      | subject _ => destruct (ToBoolean v) eqn:?
      | body _ => destruct (ToBoolean v) eqn:?
      end
  | |- context [match template ?r with _ => _ end] => destruct (template r)
  | |- context [match body ?r with _ => _ end] => destruct (body r)
  | |- context [match processTemplate ?t ?d with _ => _ end] =>
      destruct (processTemplate t d) eqn:?
  end.









(* ================================================================== *)
(** ** The e-mail endpoints of the Gmail variant *)
(* ================================================================== *)

Lemma transporter_needs_both (env : environment) :
  env_GMAIL_USER env = None \/ env_GMAIL_APP_PASSWORD env = None ->
  Gmail.emailTransporter env = false.
Proof.
  unfold Gmail.emailTransporter, Gmail.GMAIL_USER, Gmail.GMAIL_APP_PASSWORD.
  intros [-> | ->]; [reflexivity | apply andb_false_r].
Qed.

(** X9. The Gmail variant refuses as the Resend variant does: without
    both credentials every e-mail endpoint answers the fixed 400 and
    nothing is sent; with them, a templated request without a recipient is
    answered 400 before the template is looked at. *)
Theorem gmail_requests_refused (env : environment) (w : world) (req : request) :
  (env_GMAIL_USER env = None \/ env_GMAIL_APP_PASSWORD env = None ->
   Forall
     (fun h : request -> action response =>
        run (h req) =
        (Ok (Response 400
               (JError (Text (lit "Email not configured. Set GMAIL_USER and GMAIL_APP_PASSWORD.")))),
         []))
     (Gmail.email_handlers env w)) /\
  (Gmail.emailTransporter env = true -> ToBoolean (to req) = false ->
   Forall
     (fun h : request -> action response =>
        run (h req) =
        (Ok (Response 400 (JError (Text (lit "Recipient email required")))), []))
     [Gmail.send_weekly_update env w; Gmail.send_invoice env w;
      Gmail.send_quote env w]).
Proof.
  split.
  - intro H. apply transporter_needs_both in H.
    unfold Gmail.email_handlers, Gmail.send_weekly_update, Gmail.send_invoice,
      Gmail.send_quote, Gmail.test_email.
    rewrite H. repeat constructor.
  - intros Hc Hto.
    repeat (apply Forall_cons || apply Forall_nil); cbv beta;
      unfold Gmail.send_weekly_update, Gmail.send_invoice, Gmail.send_quote;
      rewrite Hc, Hto; reflexivity.
Qed.

Lemma gmail_requests_refused_witness :
  Forall
    (fun h : request -> action response =>
       run (h empty_request) =
       (Ok (Response 400 (JError (Text (lit "Recipient email required")))), []))
    [Gmail.send_weekly_update gmail_environment accepting_world;
     Gmail.send_invoice gmail_environment accepting_world;
     Gmail.send_quote gmail_environment accepting_world].
Proof.
  apply (gmail_requests_refused gmail_environment accepting_world empty_request);
    reflexivity.
Defined.





(* ================================================================== *)
(** ** Templates that cannot be processed *)
(* ================================================================== *)

Lemma insert_index_digits (n : N) (k : jsstring) (l : list (N * jsstring)) :
  array_index k <> None ->
  (forall y, In y l -> array_index (snd y) <> None) ->
  forall x, In x (insert_index n k l) -> array_index (snd x) <> None.
Proof.
  intro E. induction l as [|[m j] l IHl]; cbn [insert_index]; intros Hl x Hx.
  - destruct Hx as [<-|[]]. exact E.
  - destruct (N.ltb n m).
    + destruct Hx as [<-|Hx]; [exact E | now apply Hl].
    + destruct Hx as [<-|Hx]; [apply Hl; now left|].
      apply IHl; [|exact Hx]. intros y Hy. apply Hl. now right.
Qed.

Lemma index_keys_digits (o : object) :
  forall x, In x (index_keys o) -> array_index (snd x) <> None.
Proof.
  induction o as [|[k v] o IH]; cbn [index_keys]; [intros x []|].
  destruct (array_index k) eqn:E; [|exact IH].
  apply insert_index_digits; [congruence | exact IH].
Qed.

Lemma array_index_word (k : jsstring) : array_index k <> None -> word k = true.
Proof.
  unfold array_index. destruct k as [|c rest]; [congruence|].
  destruct (forallb is_digit (c :: rest)) eqn:D; [|cbn [andb]; congruence].
  intros _. unfold word. rewrite forallb_forall in *. intros x Hx.
  specialize (D x Hx). unfold is_word. unfold is_digit in D. rewrite D.
  now rewrite !orb_true_r.
Qed.

Lemma name_keys_set_property (k0 : jsstring) (v0 : value) (o : object)
    (k : jsstring) (v : value) :
  exists v0' o', set_property ((k0, v0) :: o) k v = (k0, v0') :: o'.
Proof.
  cbn [set_property]. destruct (str_eqb k0 k); eexists; eexists; reflexivity.
Qed.

Lemma fold_set_head (src : object) (ks : list jsstring) (k0 : jsstring)
    (v0 : value) (o : object) :
  exists v0' o',
    fold_left (fun o k => set_property o k (Get src k)) ks ((k0, v0) :: o) =
    (k0, v0') :: o'.
Proof.
  revert v0 o. induction ks as [|k ks IH]; intros v0 o; cbn [fold_left].
  - eexists; eexists; reflexivity.
  - destruct (name_keys_set_property k0 v0 o k (Get src k)) as [v1 [o1 ->]].
    apply IH.
Qed.

(** The merge data of a handler always has a first key, and it is a
    word: an array index of the caller's data, or [company_name]. *)
Lemma first_key_word (fallback : jsstring) (cs : option settings)
    (more : object) (d : option object) :
  exists k ks,
    Object_keys (spread (derived_keys fallback cs ++ more) d) = k :: ks /\
    word k = true.
Proof.
  assert (H : exists v o,
             spread (derived_keys fallback cs ++ more) d =
             (lit "company_name", v) :: o).
  { unfold spread, derived_keys. cbn [app].
    destruct d as [src|]; [apply fold_set_head | eexists; eexists; reflexivity]. }
  destruct H as [v [o ->]]. unfold Object_keys.
  destruct (index_keys ((lit "company_name", v) :: o)) as [|x l] eqn:E.
  - cbn [List.map app name_keys].
    replace (array_index (lit "company_name")) with (@None N) by reflexivity.
    eexists; eexists. split; reflexivity.
  - cbn [List.map app]. eexists; eexists. split; [reflexivity|].
    apply array_index_word, (index_keys_digits ((lit "company_name", v) :: o) x).
    rewrite E. now left.
Qed.

Lemma processTemplate_not_a_string (fallback : jsstring) (cs : option settings)
    (more : object) (d : option object) (t : value) :
  (forall s, t <> VStr s) ->
  processTemplate t (spread (derived_keys fallback cs ++ more) d) = Throw TypeError.
Proof.
  intro H. destruct (first_key_word fallback cs more d) as [k [ks [E W]]].
  unfold processTemplate. rewrite E, (RegExp_tag k W).
  destruct t; try reflexivity. now destruct (H s).
Qed.

(** X11. A templated request whose template is missing, or whose
    [template.subject] is not a string, is answered 500 with the engine's
    message and nothing is sent: the fault is caught, not validated. *)
Theorem unusable_template_is_500 (env : environment) (w : world) (req : request) :
  Resend.emailConfigured env = true ->
  ToBoolean (to req) = true ->
  (template req = None \/
   exists t, template req = Some t /\ forall s, template_subject t <> VStr s) ->
  Forall
    (fun h : request -> action response =>
       run (h req) = (Ok (Response 500 (JError EngineText)), []))
    [Resend.send_weekly_update env w; Resend.send_invoice env w;
     Resend.send_quote env w].
Proof.
  intros Hc Hto Ht.
  pose proof (fun more t => processTemplate_not_a_string (lit "Pool Authority")
                (companySettings req) more (data req) t) as P.
  repeat (apply Forall_cons || apply Forall_nil); cbv beta;
    unfold Resend.send_weekly_update, Resend.send_invoice, Resend.send_quote,
      Resend.weekly_mergeData, Resend.invoice_mergeData, Resend.quote_mergeData,
      Resend.template_field;
    rewrite Hc, Hto;
    (destruct Ht as [-> | [t [-> Hs]]];
     [ reflexivity
     | cbv [run try_catch abind lift respond ret throw negb];
       try rewrite <- (app_nil_r (derived_keys _ _));
       rewrite (P _ _ Hs); reflexivity ]).
Qed.

Lemma unusable_template_is_500_witness :
  run (Resend.send_invoice resend_environment accepting_world (to_only (lit "a@b.c"))) =
  (Ok (Response 500 (JError EngineText)), []).
Proof.
  pose proof (unusable_template_is_500 resend_environment accepting_world
                (to_only (lit "a@b.c")) eq_refl eq_refl (or_introl eq_refl)) as H.
  apply Forall_inv_tail, Forall_inv in H. exact H.
Defined.

(* ================================================================== *)
(** ** What is sent *)
(* ================================================================== *)




(** X14. The weekly-update and the quote endpoints are the same handler
    up to the text of the success message: on every request they make the
    same calls and give the same answer otherwise. *)
Theorem weekly_update_and_quote_alike (env : environment) (w : world) (req : request) :
  snd (run (Resend.send_weekly_update env w req)) =
    snd (run (Resend.send_quote env w req)) /\
  same_but_message (fst (run (Resend.send_weekly_update env w req)))
                   (fst (run (Resend.send_quote env w req))).
Proof.
  unfold Resend.send_weekly_update, Resend.send_quote,
    Resend.weekly_mergeData, Resend.quote_mergeData.
  destruct (Resend.emailConfigured env) eqn:Hc; [|split; reflexivity].
  through_handler; try (split; reflexivity).
  rewrite !(sendEmailWithResend_run _ _ _ _ _ _ [] Hc) by sender_defined. cbv zeta. cbn [app].
  destruct (fetch w _) as [e|[|] m]; split; reflexivity.
Qed.


(* ================================================================== *)
(** ** The HTML frame *)
(* ================================================================== *)

Lemma framed (l y before x after : jsstring) :
  y = before ++ x ++ after -> l ++ y = (l ++ before) ++ x ++ after.
Proof. intros ->. now rewrite app_assoc. Qed.

Lemma framed_line (x rest : jsstring) :
  line [lit "      "; x] ++ rest = lit "      " ++ x ++ [LF] ++ rest.
Proof.
  unfold line. cbn [concat]. now rewrite app_nil_r, <- !app_assoc.
Qed.

(** X15. The frame does not look at the content: for given settings the
    page is a fixed text before the content, the content as it is (no
    escaping), and a fixed text after it; this holds for the frame of
    either variant. *)
Theorem content_is_framed_verbatim (companySettings : option settings) :
  (exists before after, forall content,
     wrapInHtmlEmail content companySettings = before ++ content ++ after) /\
  (exists before after, forall content,
     Gmail.wrapInHtmlEmail content (settings_or_empty companySettings) =
     before ++ content ++ after).
Proof.
  split; eexists; eexists; intro content.
  - unfold wrapInHtmlEmail. do 23 (apply framed). apply framed_line.
  - unfold Gmail.wrapInHtmlEmail. do 23 (apply framed). apply framed_line.
Qed.

(* ================================================================== *)
(** ** The two variants *)
(* ================================================================== *)

(** X16. The two variants differ in their defaults only: for a request
    whose settings carry a company name they build the same merge data
    and the same page, hence the same subject and body; and their
    checkout handlers are the same function. *)
Theorem variants_agree_on_named_company (w : world) (req : request) (content : jsstring) :
  ToBoolean (opt_field (companySettings req) companyName) = true ->
  Gmail.weekly_mergeData req = Resend.weekly_mergeData req /\
  Gmail.invoice_mergeData req = Resend.invoice_mergeData req /\
  Gmail.quote_mergeData req = Resend.quote_mergeData req /\
  Gmail.wrapInHtmlEmail content (settings_or_empty (companySettings req)) =
    wrapInHtmlEmail content (companySettings req) /\
  Gmail.create_checkout_session w req = Resend.create_checkout_session w req.
Proof.
  intro H.
  assert (D : derived_keys (lit "Pool Service") (companySettings req) =
              derived_keys (lit "Pool Authority") (companySettings req)).
  { unfold derived_keys, or_else. now rewrite H. }
  unfold Gmail.weekly_mergeData, Gmail.invoice_mergeData, Gmail.quote_mergeData,
    Resend.weekly_mergeData, Resend.invoice_mergeData, Resend.quote_mergeData.
  rewrite D. repeat split.
  destruct (companySettings req) as [s|]; [|discriminate].
  cbn [opt_field] in H.
  unfold Gmail.wrapInHtmlEmail, wrapInHtmlEmail, settings_or_empty, opt_field.
  assert (E : forall d, or_else (companyName s) d = companyName s)
    by (intro d; unfold or_else; now rewrite H).
  cbv beta zeta. now rewrite !E.
Qed.

Lemma variants_agree_on_named_company_witness :
  Gmail.invoice_mergeData (with_settings (named (lit "Blue Pools"))) =
    Resend.invoice_mergeData (with_settings (named (lit "Blue Pools"))) /\
  Gmail.wrapInHtmlEmail (lit "Hello") (named (lit "Blue Pools")) =
    wrapInHtmlEmail (lit "Hello") (Some (named (lit "Blue Pools"))).
Proof.
  destruct (variants_agree_on_named_company accepting_world
              (with_settings (named (lit "Blue Pools"))) (lit "Hello") eq_refl)
    as [_ [H1 [_ [H2 _]]]].
  split; [exact H1 | exact H2].
Defined.

(* ================================================================== *)
(** ** The health report *)
(* ================================================================== *)

Lemma configured_or_not (b : bool) :
  (if b then lit "configured" else lit "not configured") = lit "configured" <->
  b = true.
Proof. destruct b; split; intro H; try reflexivity; discriminate. Qed.

(** X17. The health report tells what the test endpoint will do: its
    [email] entry is ['configured'] exactly when a test request reaches
    the mail provider, in either variant.  Its [stripe] entry follows
    [STRIPE_SECRET_KEY] in the Resend variant and is the constant
    ['configured'] in the Gmail variant. *)
Theorem health_tells_the_test_endpoint (env : environment) (w : world) (req : request) :
  (health_email (Resend.health env) = lit "configured" <->
   snd (run (Resend.test_email env w req)) <> []) /\
  (health_email (Gmail.health env) = lit "configured" <->
   snd (run (Gmail.test_email env w req)) <> []) /\
  (health_stripe (Resend.health env) = lit "configured" <->
   exists c s, env_STRIPE_SECRET_KEY env = Some (c :: s)) /\
  health_stripe (Gmail.health env) = lit "configured".
Proof.
  unfold Resend.health, Gmail.health. cbn [health_email health_stripe].
  rewrite !configured_or_not. repeat split.
  - intro Hc. unfold Resend.test_email. rewrite Hc.
    cbv [run try_catch abind negb respond ret].
    rewrite (sendEmailWithResend_run _ _ _ _ _ _ [] Hc) by sender_defined. cbv zeta. cbn [app].
    destruct (fetch w _) as [e|[|] m]; discriminate.
  - destruct (Resend.emailConfigured env) eqn:Hc; [reflexivity|].
    intro H. exfalso. apply H.
    destruct (not_configured_run env Hc w req) as [_ [_ [_ [_ ->]]]]. reflexivity.
  - intro Hc. unfold Gmail.test_email. rewrite Hc.
    cbv [run try_catch abind lift perform negb respond ret app].
    destruct (sendMail w _) as [[]|e|]; discriminate.
  - destruct (Gmail.emailTransporter env) eqn:Hc; [reflexivity|].
    intro H. exfalso. apply H. unfold Gmail.test_email. now rewrite Hc.
  - unfold Resend.STRIPE_SECRET_KEY, env_or.
    destruct (env_STRIPE_SECRET_KEY env) as [[|c s]|]; try discriminate.
    intros _. eexists; eexists; reflexivity.
  - intros [c [s E]]. unfold Resend.STRIPE_SECRET_KEY. now rewrite E.
Qed.

Lemma health_tells_the_test_endpoint_witness :
  health_email (Resend.health resend_environment) = lit "configured" /\
  snd (run (Resend.test_email resend_environment accepting_world empty_request)) <> [].
Proof.
  split; [reflexivity|].
  apply (proj1 (health_tells_the_test_endpoint resend_environment accepting_world
                  empty_request)).
  reflexivity.
Defined.

(* ================================================================== *)
(** ** What the checkout endpoint leaves behind *)
(* ================================================================== *)

(** An amount that cannot be converted to a number: the guard throws,
    the handler answers 500 and the provider is not called. *)
Example unconvertible_amount_is_500 :
  run (Resend.create_checkout_session accepting_world
         (with_amount (AmountObject [(lit "toString", AmountNumber (number_of_Z 1))]))) =
  (Ok (Response 500 (JError EngineText)), []).
Proof. reflexivity. Qed.

(** X18. The checkout endpoint, on every request: the fixed 400 before
    any call; or a 500 with the engine's message before any call, when the
    amount cannot be converted to a number; or exactly one session
    creation, answered 200 with the session's id and url when the provider
    returns one and 500 with the provider's message when it throws.  No
    exception escapes and no mail is sent. *)
Theorem checkout_outcomes (w : world) (req : request) :
  (forall cfg, stripe_create w cfg <> Unread) ->
  checkout_outcome w (run (Resend.create_checkout_session w req)) /\
  checkout_outcome w (run (Gmail.create_checkout_session w req)).
Proof.
  intro Hw.
  assert (G : checkout_outcome w (run (Resend.create_checkout_session w req))).
  { unfold checkout_outcome.
    pose proof (checkout_run w req) as R.
    pose proof (invalid_amount_cases (amount req)) as C.
    destruct (invalid_amount (amount req)) as [[|]|e|]; [| | |destruct R].
    - now left.
    - right. right. destruct R as [n [cfg [_ [R1 [_ [R3 R4]]]]]].
      exists cfg. split; [exact R1|].
      destruct (stripe_create w cfg) as [[id url]|e|] eqn:F.
      + left. exists id, url. split; [reflexivity|]. exact (R3 _ eq_refl).
      + right. exists e. split; [reflexivity|]. exact (R4 _ eq_refl).
      + now destruct (Hw _ F).
    - right. left. destruct C as [-> _]. exact R. }
  split; exact G.
Qed.

Lemma checkout_outcomes_witness :
  checkout_outcome refusing_world
    (run (Resend.create_checkout_session refusing_world
            (with_amount (AmountNumber amount_49_99)))).
Proof.
  apply (checkout_outcomes refusing_world (with_amount (AmountNumber amount_49_99))).
  intro cfg. discriminate.
Defined.
